(** * Radar.py: serial frame decoder and polar renderer

    A shallow embedding of [Radar.py] (a pygame radar display fed by a serial
    link) and the properties of its decoder, its projection and its drawing
    decisions.

    Conventions of the embedding:
    - a Python [str] is the list of its code points ([list N]);
    - a Python [bytes] value is a [list byte];
    - a Python [int] is a [Z];
    - the module-level globals the functions read and write are the fields
      of explicit state records, passed in and returned;
    - in the geometry of the renderer Python floats are idealised as real
      numbers ([R]): what is proved there are bounds and orders, which the
      rounding of the floating-point operations keeps; the integers are those
      that convert to a float ([fits_float]), beyond them the code raises
      [OverflowError];
    - [processing_to_screen] is also modelled on binary64 floats
      ([FloatProjector]), with the rounding of the sum and the errors of
      [int];
    - drawing calls on a pygame surface are recorded as a list of drawing
      commands. *)

From Stdlib Require Import List Bool Arith ZArith NArith Lia.
From Stdlib Require Import Strings.String Strings.Ascii Strings.Byte.
From Stdlib Require Import Numbers.DecimalString Numbers.DecimalPos.
From Stdlib Require Import Reals Lra.
From Stdlib Require Floats.PrimFloat Floats.SpecFloat Floats.FloatOps.
From Stdlib Require Numbers.Cyclic.Int63.Uint63.
Import ListNotations.

Set Implicit Arguments.

(** ** Python text *)

Module PyText.

Local Open Scope N_scope.

(** A [str]: the sequence of its Unicode code points. *)
Definition str := list N.

(** An ASCII literal of the source, as a [str]. *)
Definition lit (s : string) : str :=
  map (fun a => N_of_ascii a) (list_ascii_of_string s).

Definition DOT : N := 46.    (* '.' *)
Definition COMMA : N := 44.  (* ',' *)

(** [c in s] *)
Definition contains (c : N) (s : str) : bool := existsb (N.eqb c) s.

(** [s.split(c, 1)] when [c in s]: the text before the first [c] and the text
    after it.  [None] when [c] does not occur (Python then returns the
    one-element list [[s]]). *)
Fixpoint split1 (c : N) (s : str) : option (str * str) :=
  match s with
  | [] => None
  | x :: r =>
      if x =? c then Some ([], r)
      else match split1 c r with
           | Some (before, after) => Some (x :: before, after)
           | None => None
           end
  end.

(** [str.isspace] on one code point (CPython's [Py_UNICODE_ISSPACE]). *)
Definition is_space (c : N) : bool :=
  ((0x09 <=? c) && (c <=? 0x0D)) || ((0x1C <=? c) && (c <=? 0x20))
  || (c =? 0x85) || (c =? 0xA0) || (c =? 0x1680)
  || ((0x2000 <=? c) && (c <=? 0x200A))
  || (c =? 0x2028) || (c =? 0x2029) || (c =? 0x202F) || (c =? 0x205F)
  || (c =? 0x3000).

Fixpoint lstrip (s : str) : str :=
  match s with
  | [] => []
  | c :: r => if is_space c then lstrip r else s
  end.

Definition rstrip (s : str) : str := rev (lstrip (rev s)).

(** [s.strip()] *)
Definition strip (s : str) : str := rstrip (lstrip s).

(** The code points of the digit zero of every decimal-digit script known to
    the Unicode database (version 14); each is followed by its digits one to
    nine. *)
Definition decimal_zeros : list N :=
  [0x30; 0x660; 0x6F0; 0x7C0; 0x966; 0x9E6; 0xA66; 0xAE6; 0xB66; 0xBE6;
   0xC66; 0xCE6; 0xD66; 0xDE6; 0xE50; 0xED0; 0xF20; 0x1040; 0x1090; 0x17E0;
   0x1810; 0x1946; 0x19D0; 0x1A80; 0x1A90; 0x1B50; 0x1BB0; 0x1C40; 0x1C50;
   0xA620; 0xA8D0; 0xA900; 0xA9D0; 0xA9F0; 0xAA50; 0xABF0; 0xFF10; 0x104A0;
   0x10D30; 0x11066; 0x110F0; 0x11136; 0x111D0; 0x112F0; 0x11450; 0x114D0;
   0x11650; 0x116C0; 0x11730; 0x118E0; 0x11950; 0x11C50; 0x11D50; 0x11DA0;
   0x16A60; 0x16AC0; 0x16B50; 0x1D7CE; 0x1D7D8; 0x1D7E2; 0x1D7EC; 0x1D7F6;
   0x1E140; 0x1E2F0; 0x1E950; 0x1FBF0].

(** The value of a decimal digit ([Py_UNICODE_TODECIMAL]), [None] for any
    other character. *)
Definition to_decimal (c : N) : option Z :=
  match find (fun z => (z <=? c) && (c <? z + 10)) decimal_zeros with
  | Some z => Some (Z.of_N (c - z))
  | None => None
  end.

(** What [int] skips around a number: the ASCII blanks of [Py_ISSPACE], and
    the other Unicode blanks, which [int] first rewrites to a space. *)
Definition int_space (c : N) : bool :=
  if c <? 127 then ((0x09 <=? c) && (c <=? 0x0D)) || (c =? 0x20)
  else is_space c.

Fixpoint skip_spaces (s : str) : str :=
  match s with
  | [] => []
  | c :: r => if int_space c then skip_spaces r else s
  end.

(** [sys.get_int_max_str_digits()]: longer numbers raise [ValueError]. *)
Definition int_max_str_digits : nat := 4300.

(** The digit scan of [int]: digits, with single underscores between them.
    [prev_us] tells whether the previous character was an underscore; the
    result is the value read, the number of digits and the text left. *)
Fixpoint scan_digits (s : str) (prev_us : bool) (acc : Z) (digits : nat)
  : option (Z * nat * str) :=
  match s with
  | [] => if prev_us then None else Some (acc, digits, [])
  | c :: r =>
      if c =? 0x5F then
        if prev_us then None else scan_digits r true acc digits
      else
        match to_decimal c with
        | Some d => scan_digits r false (10 * acc + d)%Z (S digits)
        | None => if prev_us then None else Some (acc, digits, s)
        end
  end.

(** [int(s)] for a [str] [s] (base ten); [None] stands for [ValueError]. *)
Definition py_int (s : str) : option Z :=
  let s1 := skip_spaces s in
  let '(negative, s2) :=
    match s1 with
    | c :: r => if c =? 0x2B then (false, r)
                else if c =? 0x2D then (true, r)
                else (false, s1)
    | [] => (false, s1)
    end in
  match s2 with
  | c :: _ =>
      if c =? 0x5F then None
      else
        match scan_digits s2 false 0%Z 0%nat with
        | Some (v, digits, rest) =>
            match digits, skip_spaces rest with
            | O, _ => None
            | _, _ :: _ => None
            | _, [] =>
                if (int_max_str_digits <? digits)%nat then None
                else Some (if negative then (- v)%Z else v)
            end
        | None => None
        end
  | [] => None
  end.

End PyText.

(** ** [bytes.decode("utf-8", errors=...)] *)

Module Utf8.

Import PyText.
Local Open Scope N_scope.

(** The error handler of the codec. *)
Inductive errors := Strict | Ignore.

(** What an undecodable run of bytes does: [Strict] raises
    [UnicodeDecodeError] ([None]); [Ignore] goes on after the run. *)
Definition on_error (e : errors) (resume : option str) : option str :=
  match e with
  | Strict => None
  | Ignore => resume
  end.

Definition emit (c : N) (k : option str) : option str :=
  match k with
  | Some s => Some (c :: s)
  | None => None
  end.

Definition is_continuation (b : N) : bool := (0x80 <=? b) && (b <? 0xC0).

(** CPython's UTF-8 decoder.  An invalid start byte is a run of one byte; an
    invalid continuation byte ends the run before it; a sequence cut by the
    end of the data is a run up to the end. *)
Fixpoint decode (e : errors) (s : list byte) : option str :=
  match s with
  | [] => Some []
  | b0 :: r =>
    let ch := Byte.to_N b0 in
    if ch <? 0x80 then emit ch (decode e r)
    else if ch <? 0xC2 then on_error e (decode e r)
    else if ch <? 0xE0 then
      match r with
      | [] => on_error e (Some [])
      | b1 :: r1 =>
        let ch2 := Byte.to_N b1 in
        if negb (is_continuation ch2) then on_error e (decode e r)
        else emit (N.shiftl ch 6 + ch2 - (N.shiftl 0xC0 6 + 0x80))
                  (decode e r1)
      end
    else if ch <? 0xF0 then
      match r with
      | [] => on_error e (Some [])
      | b1 :: r1 =>
        let ch2 := Byte.to_N b1 in
        if negb (is_continuation ch2)
           || (if ch2 <? 0xA0 then ch =? 0xE0 else ch =? 0xED)
        then on_error e (decode e r)
        else
          match r1 with
          | [] => on_error e (Some [])
          | b2 :: r2 =>
            let ch3 := Byte.to_N b2 in
            if negb (is_continuation ch3) then on_error e (decode e r1)
            else emit (N.shiftl ch 12 + N.shiftl ch2 6 + ch3
                       - (N.shiftl 0xE0 12 + N.shiftl 0x80 6 + 0x80))
                      (decode e r2)
          end
      end
    else if ch <? 0xF5 then
      match r with
      | [] => on_error e (Some [])
      | b1 :: r1 =>
        let ch2 := Byte.to_N b1 in
        if negb (is_continuation ch2)
           || (if ch2 <? 0x90 then ch =? 0xF0 else ch =? 0xF4)
        then on_error e (decode e r)
        else
          match r1 with
          | [] => on_error e (Some [])
          | b2 :: r2 =>
            let ch3 := Byte.to_N b2 in
            if negb (is_continuation ch3) then on_error e (decode e r1)
            else
              match r2 with
              | [] => on_error e (Some [])
              | b3 :: r3 =>
                let ch4 := Byte.to_N b3 in
                if negb (is_continuation ch4) then on_error e (decode e r2)
                else emit (N.shiftl ch 18 + N.shiftl ch2 12
                           + N.shiftl ch3 6 + ch4
                           - (N.shiftl 0xF0 18 + N.shiftl 0x80 12
                              + N.shiftl 0x80 6 + 0x80))
                          (decode e r3)
              end
          end
      end
    else on_error e (decode e r)
  end.

(** The bytes of an ASCII literal. *)
Definition bytes (s : string) : list byte := list_byte_of_string s.

Definition is_ascii (b : byte) : bool := Byte.to_N b <? 0x80.

(** The text of ASCII bytes. *)
Definition text_of (bs : list byte) : str := map Byte.to_N bs.

(** A byte that starts no character: a continuation byte, [0xC0], [0xC1],
    or a byte from [0xF5] on. *)
Definition invalid_start (b : byte) : bool :=
  let ch := Byte.to_N b in
  ((0x80 <=? ch) && (ch <? 0xC2)) || (0xF5 <=? ch).

(** Bytes that are valid text on their own. *)
Definition decodable (bs : list byte) : Prop := decode Strict bs <> None.

End Utf8.


(** ** The frame decoder: [read_serial] *)

Module Decoder.

Import PyText Utf8.

(** The globals of [read_serial]. *)
Record State := mkState {
  serial_buffer : str;
  angle_str : str;
  distance_str : str;
  i_angle : Z;
  i_distance : Z
}.

(** The module-level initialisation (lines 44-53). *)
Definition initial : State := mkState [] [] [] 0 0.

Definition set_buffer (b : str) (st : State) : State :=
  mkState b (angle_str st) (distance_str st) (i_angle st) (i_distance st).

Definition set_fields (a d : str) (st : State) : State :=
  mkState (serial_buffer st) a d (i_angle st) (i_distance st).

Definition set_angle (v : Z) (st : State) : State :=
  mkState (serial_buffer st) (angle_str st) (distance_str st) v
          (i_distance st).

Definition set_distance (v : Z) (st : State) : State :=
  mkState (serial_buffer st) (angle_str st) (distance_str st) (i_angle st) v.

(** A sample: angle and distance. *)
Definition Sample := (Z * Z)%type.

Definition sample (st : State) : Sample := (i_angle st, i_distance st).

(** The body of the loop once [msg] is cut off the buffer (lines 243-249).
    Beside the new globals it returns, for the record, the sample of a
    message whose two fields were both read. *)
Definition parse_message (msg : str) (st : State) : State * list Sample :=
  if contains COMMA msg then
    match split1 COMMA msg with
    | Some (a, d) =>
        let st1 := set_fields a d st in
        match py_int (strip a) with
        | Some angle =>
            let st2 := set_angle angle st1 in
            match py_int (strip d) with
            | Some distance => (set_distance distance st2, [(angle, distance)])
            | None => (st2, [])
            end
        | None => (st1, [])
        end
    | None => (st, [])
    end
  else (st, []).

(** The loop [while '.' in serial_buffer] (lines 240-249), at most [fuel]
    times round. *)
Fixpoint process_messages (fuel : nat) (st : State) : State * list Sample :=
  match fuel with
  | O => (st, [])
  | S fuel' =>
      if contains DOT (serial_buffer st) then
        match split1 DOT (serial_buffer st) with
        | Some (msg, rest) =>
            let (st1, out1) := parse_message msg (set_buffer rest st) in
            let (st2, out2) := process_messages fuel' st1 in
            (st2, out1 ++ out2)
        | None => (st, [])
        end
      else (st, [])
  end.

(** The loop itself: every round takes a ['.'] off the buffer, so the length
    of the buffer is fuel enough ([while_loop_unfold], [while_loop_exit]). *)
Definition while_loop (st : State) : State * list Sample :=
  process_messages (List.length (serial_buffer st)) st.

(** [read_serial] on the bytes [chunk] that [ser.read(ser.in_waiting)]
    returns.  A port that is absent or closed, or whose [in_waiting] fails,
    gives no bytes: the function returns at once, as for the empty chunk. *)
Definition read_serial (chunk : list byte) (st : State)
  : State * list Sample :=
  if (0 <? List.length chunk)%nat then
    match decode Ignore chunk with
    | Some text =>
        while_loop (set_buffer (serial_buffer st ++ text) st)
    | None => (st, [])
    end
  else (st, []).

(** Successive calls of [read_serial], one per chunk. *)
Fixpoint feed_all (chunks : list (list byte)) (st : State)
  : State * list Sample :=
  match chunks with
  | [] => (st, [])
  | c :: cs =>
      let (st1, out1) := read_serial c st in
      let (st2, out2) := feed_all cs st1 in
      (st2, out1 ++ out2)
  end.

(** The bytes of one message on the wire: the payload and the
    terminator. *)
Definition frame (payload : list byte) : list byte := payload ++ bytes ".".

(** The messages [msgs] parsed one after the other. *)
Fixpoint parse_all (msgs : list str) (st : State) : State * list Sample :=
  match msgs with
  | [] => (st, [])
  | m :: ms =>
      let (st1, out1) := parse_message m st in
      let (st2, out2) := parse_all ms st1 in
      (st2, out1 ++ out2)
  end.

End Decoder.

(** ** The projection: [processing_to_screen] *)

Module Projector.

Local Open Scope R_scope.

(** Configuration (lines 14-28). *)
Definition WIDTH : Z := 480.
Definition HEIGHT : Z := 320.
Definition RADAR_CX : Z := 240.
Definition RADAR_CY : Z := 210.
Definition RADAR_RADIUS : Z := 200.

(** [int(x)] for a float [x]: the fractional part is dropped, towards
    zero. *)
Definition int_of_float (x : R) : Z :=
  if Rle_dec 0 x then Int_part x else (- Int_part (- x))%Z.

(** Lines 78-88, in real arithmetic ([FloatProjector.processing_to_screen]
    is the same function on binary64 floats). *)
Definition processing_to_screen (x_local y_local : R) : Z * Z :=
  let x_screen := IZR RADAR_CX + x_local in
  let y_screen := IZR RADAR_CY - y_local in
  (int_of_float x_screen, int_of_float y_screen).

(** [math.radians] *)
Definition radians (deg : R) : R := deg * (PI / 180).

(** The point at [radius] from the centre in the direction [deg], as
    [draw_radar], [draw_object], [draw_line] and [draw_text] compute it
    before they call [processing_to_screen]:
    [rad = math.radians(deg); x = radius * math.cos(rad);
     y = radius * math.sin(rad)], with [math.radians], [math.cos] and
    [math.sin] idealised as the real functions: a pixel computed from them
    can differ by one from the pixel of the code where the exact value is an
    integer (row 210 here, row 209 in the code, at 180 degrees and radius
    200); bounds and orders are not affected. *)
Definition polar_to_local (deg radius : R) : R * R :=
  let rad := radians deg in
  (radius * cos rad, radius * sin rad).

Definition polar_to_screen (deg radius : R) : Z * Z :=
  let (x, y) := polar_to_local deg radius in
  processing_to_screen x y.

End Projector.

(** ** The renderer: [draw_object] and [draw_text] *)

Module Renderer.

Import PyText Decoder Projector.

Definition color := (Z * Z * Z)%type.
Definition GREEN : color := (0, 255, 0)%Z.
Definition GREEN_LINE : color := (100, 255, 100)%Z.
Definition GREEN_TEXT : color := (150, 255, 150)%Z.
Definition RED : color := (255, 60, 60)%Z.
Definition BLACK : color := (0, 0, 0)%Z.

Inductive font := font_small | font_medium | font_large.

(** Where a rendered text is put: by its top-left corner, or by the centre
    of its rectangle. *)
Inductive anchor := TopLeft (p : Z * Z) | Center (p : Z * Z).

(** The drawing calls the two functions make on the surface. *)
Inductive DrawCmd :=
| Line (c : color) (start stop : Z * Z) (width : Z)
| Circle (c : color) (center : Z * Z) (radius : Z)
| Rect (c : color) (left top w h : Z)
| Text (f : font) (s : str) (c : color) (at_ : anchor).

(** The detection threshold and the scale, as written in [draw_object]. *)
Definition THRESHOLD : Z := 40.
Definition PIXELS_PER_CM : Z := 5.

(** Lines 130-149.  The global [pix_distance] is written and read only
    here; it is the local [pix_distance] below.  The calls described are
    those of a run in which [i_angle] and [pix_distance] convert to a float
    ([FloatProjector.drawable]); for larger integers [math.radians] and the
    product with a float raise [OverflowError]. *)
Definition draw_object (st : State) : list DrawCmd :=
  if (i_distance st <? THRESHOLD)%Z then
    let pix_distance := (i_distance st * PIXELS_PER_CM)%Z in
    let rad := radians (IZR (i_angle st)) in
    let x1 := (IZR pix_distance * cos rad)%R in
    let y1 := (IZR pix_distance * sin rad)%R in
    let x2 := (IZR RADAR_RADIUS * cos rad)%R in
    let y2 := (IZR RADAR_RADIUS * sin rad)%R in
    let start := processing_to_screen x1 y1 in
    let stop := processing_to_screen x2 y2 in
    let obj_pos := processing_to_screen x1 y1 in
    [Line RED start stop 3; Circle RED obj_pos 3]
  else [].

(** The detection marker in words: the distance scaled to pixels, a line
    from the scaled point to the edge of the range at the same angle, and a
    filled circle at the scaled point, both in red. *)
Definition detection_marker (st : State) : list DrawCmd :=
  let angle := IZR (i_angle st) in
  let point :=
    polar_to_screen angle (IZR (i_distance st * PIXELS_PER_CM)) in
  let edge := polar_to_screen angle (IZR RADAR_RADIUS) in
  [Line RED point edge 3; Circle RED point 3].

(** [str(n)]: the decimal digits of [n], after a minus sign when [n] is
    negative. *)
Definition str_of_int (n : Z) : str :=
  lit (DecimalString.NilZero.string_of_int (Z.to_int n)).

(** [format(n, "03d")]: at least three characters, zeros put between the
    sign and the digits. *)
Definition format_03d (n : Z) : str :=
  let sign := if (n <? 0)%Z then lit "-" else [] in
  let digits := str_of_int (Z.abs n) in
  sign ++ repeat 48%N (3 - List.length sign - List.length digits) ++ digits.

Definition DEGREE_SIGN : N := 176.

(** The scale labels of [draw_text] (lines 177-183). *)
Definition scale_labels : list DrawCmd :=
  let scale_y := (RADAR_CY + 5)%Z in
  flat_map
    (fun dist_cm : Z =>
       let x_pos := (RADAR_CX + dist_cm * 5)%Z in
       if (x_pos <? WIDTH - 20)%Z then
         [Text font_small (str_of_int dist_cm) GREEN_TEXT
               (TopLeft ((x_pos - 5)%Z, scale_y));
          Line GREEN (x_pos, (RADAR_CY - 3)%Z) (x_pos, (RADAR_CY + 3)%Z) 1]
       else [])
    [10; 20; 30; 40]%Z.

(** The degree labels of [draw_text] (lines 204-213). *)
Definition degree_labels : list DrawCmd :=
  map
    (fun deg : Z =>
       let rad := radians (IZR deg) in
       let label_dist := (RADAR_RADIUS + 15)%Z in
       let x := (IZR label_dist * cos rad)%R in
       let y := (IZR label_dist * sin rad)%R in
       let screen_pos := processing_to_screen x y in
       Text font_small (str_of_int deg) GREEN_LINE (Center screen_pos))
    [0; 45; 90; 135; 180]%Z.

(** The three status texts of [draw_text] (lines 190-201). *)
Definition txt_status (st : State) (no_object : str) : DrawCmd :=
  Text font_small no_object
       (if (40 <? i_distance st)%Z then GREEN_TEXT else RED)
       (TopLeft (5, 240)%Z).

Definition txt_ang (st : State) : DrawCmd :=
  Text font_small (lit "A:" ++ format_03d (i_angle st) ++ [DEGREE_SIGN])
       GREEN_TEXT (TopLeft (5, 240 + 15)%Z).

Definition txt_dist (st : State) : DrawCmd :=
  if (i_distance st <? 40)%Z then
    Text font_small (lit "D:" ++ str_of_int (i_distance st) ++ lit "cm") RED
         (TopLeft (5, 240 + 30)%Z)
  else
    Text font_small (lit "D:---") GREEN_TEXT (TopLeft (5, 240 + 30)%Z).

(** Lines 164-213: the new value of the global [no_object], and the
    drawing calls in order. *)
Definition draw_text (st : State) : str * list DrawCmd :=
  let no_object := if (40 <? i_distance st)%Z then lit "Out" else lit "In" in
  (no_object,
   [Rect BLACK 0 235 WIDTH (HEIGHT - 235); Line GREEN (0, 235)%Z (WIDTH, 235%Z) 1]
   ++ scale_labels
   ++ [Text font_medium (lit "RADAR") GREEN_LINE (TopLeft (5, 5)%Z);
       txt_status st no_object; txt_ang st; txt_dist st]
   ++ degree_labels).

End Renderer.

(** ** The rest of a frame: [draw_radar], [draw_line] and the main loop *)

Module Frame.

Import PyText Decoder Projector Renderer.

Definition BG_COLOR : color := (10, 10, 10)%Z.

(** What one round of the main loop does to [radar_surface]: the blit of
    the translucent [fade_rect], the arcs of [pygame.draw.arc] (bounding
    rectangle, start and stop angle, width), and the calls already
    described by [DrawCmd]. *)
Inductive SurfaceCmd :=
| Fade (c : color) (alpha : Z) (left top w h : Z)
| Arc (c : color) (left top w h : Z) (start stop : R) (width : Z)
| Draw (d : DrawCmd).

(** Lines 90-127. *)
Definition draw_radar : list SurfaceCmd :=
  [Arc GREEN (RADAR_CX - 900) (RADAR_CY - 900) 1800 1800 PI (2 * PI) 2;
   Arc GREEN (RADAR_CX - 700) (RADAR_CY - 700) 1400 1400 PI (2 * PI) 2;
   Arc GREEN (RADAR_CX - 500) (RADAR_CY - 500) 1000 1000 PI (2 * PI) 2;
   Arc GREEN (RADAR_CX - 300) (RADAR_CY - 300) 600 600 PI (2 * PI) 2]
  ++ [Draw (Line GREEN
                 (processing_to_screen (IZR (- RADAR_RADIUS)) 0)
                 (processing_to_screen (IZR RADAR_RADIUS) 0) 1)]
  ++ map
       (fun deg : Z =>
          let rad := radians (IZR deg) in
          let x := (IZR RADAR_RADIUS * cos rad)%R in
          let y := (IZR RADAR_RADIUS * sin rad)%R in
          let start := processing_to_screen 0 0 in
          let stop := processing_to_screen x y in
          Draw (Line GREEN start stop 1))
       [30; 60; 90; 120; 150]%Z.

(** Lines 152-161, for an angle that converts to a float
    ([FloatProjector.fits_float]); for a larger one [math.radians] raises
    [OverflowError]. *)
Definition draw_line (st : State) : list DrawCmd :=
  let rad := radians (IZR (i_angle st)) in
  let x2 := (IZR RADAR_RADIUS * cos rad)%R in
  let y2 := (IZR RADAR_RADIUS * sin rad)%R in
  let start := processing_to_screen 0 0 in
  let stop := processing_to_screen x2 y2 in
  [Line GREEN_LINE start stop 2].

(** One round of the main loop (lines 263-275) on the bytes the port holds:
    the new globals and what is drawn on [radar_surface], in order, when the
    sample read converts to floats ([FloatProjector.drawable]). *)
Definition loop_iteration (chunk : list byte) (st : State)
  : State * list SurfaceCmd :=
  let st' := fst (read_serial chunk st) in
  (st',
   [Fade BG_COLOR 10 0 0 WIDTH 235]
   ++ draw_radar
   ++ map Draw (draw_line st')
   ++ map Draw (draw_object st')
   ++ map Draw (snd (draw_text st'))).

(** The colour a call draws with. *)
Definition draw_color (d : DrawCmd) : color :=
  match d with
  | Line c _ _ _ | Circle c _ _ | Rect c _ _ _ _ | Text _ _ c _ => c
  end.

Definition cmd_color (c : SurfaceCmd) : color :=
  match c with
  | Fade col _ _ _ _ _ | Arc col _ _ _ _ _ _ _ => col
  | Draw d => draw_color d
  end.

(** The pixels a line joins, the centre of a circle. *)
Definition draw_points (d : DrawCmd) : list (Z * Z) :=
  match d with
  | Line _ start stop _ => [start; stop]
  | Circle _ center _ => [center]
  | Rect _ _ _ _ _ | Text _ _ _ _ => []
  end.

(** The part of the canvas above the base line of the radar: columns
    0 to 479, rows 0 to 210. *)
Definition in_radar_area (p : Z * Z) : Prop :=
  (0 <= fst p < WIDTH)%Z /\ (0 <= snd p <= RADAR_CY)%Z.

(** The point at angle [theta] of the circle inscribed in the square
    [left, top, w, w], angles counted from the positive x axis, y pointing
    up. *)
Definition circle_point (left top w : Z) (theta : R) : R * R :=
  let r := (IZR w / 2)%R in
  ((IZR left + r + r * cos theta)%R, (IZR top + r - r * sin theta)%R).

Definition on_canvas (p : R * R) : Prop :=
  (0 <= fst p < IZR WIDTH)%R /\ (0 <= snd p < IZR HEIGHT)%R.

End Frame.

(** ** Notions about the text on the wire *)

Module Wire.

Import PyText Utf8 Decoder.
Local Open Scope N_scope.

(** The number of terminators in a text, in a chunk. *)
Definition dots (s : str) : nat := List.length (filter (N.eqb DOT) s).

Definition dot_bytes (bs : list byte) : nat :=
  List.length (filter (fun b => Byte.to_N b =? DOT) bs).

(** The ASCII characters of a text, the ASCII bytes of a chunk. *)
Definition ascii_part (s : str) : str := filter (fun c => c <? 0x80) s.

Definition ascii_bytes (bs : list byte) : list byte := filter is_ascii bs.

(** A character that may occur in the text of a number: a blank, a sign,
    an underscore or a decimal digit. *)
Definition int_char (c : N) : bool :=
  is_space c || (c =? 0x2B) || (c =? 0x2D) || (c =? 0x5F)
  || match to_decimal c with Some _ => true | None => false end.

(** An ASCII digit. *)
Definition ascii_digit (c : N) : bool := (48 <=? c) && (c <=? 57).

(** The number a row of decimal digits denotes after the digits [acc]. *)
Fixpoint uint_value (acc : Z) (d : Decimal.uint) : Z :=
  match d with
  | Decimal.Nil => acc
  | Decimal.D0 d => uint_value (10 * acc) d
  | Decimal.D1 d => uint_value (10 * acc + 1) d
  | Decimal.D2 d => uint_value (10 * acc + 2) d
  | Decimal.D3 d => uint_value (10 * acc + 3) d
  | Decimal.D4 d => uint_value (10 * acc + 4) d
  | Decimal.D5 d => uint_value (10 * acc + 5) d
  | Decimal.D6 d => uint_value (10 * acc + 6) d
  | Decimal.D7 d => uint_value (10 * acc + 7) d
  | Decimal.D8 d => uint_value (10 * acc + 8) d
  | Decimal.D9 d => uint_value (10 * acc + 9) d
  end.

End Wire.

(** ** Binary64 floats: conversions, and [processing_to_screen] on them *)

Module FloatProjector.

Import PyText Decoder Projector Renderer.
Import PrimFloat SpecFloat FloatOps.

(** An integer that converts to a float.  The conversion of an [int] raises
    [OverflowError] from [2^1024 - 2^970] on; every integer below [2^1023]
    in magnitude converts. *)
Definition fits_float (n : Z) : Prop := (Z.abs n < 2 ^ 1023)%Z.

(** A sample [draw_line] and [draw_object] can convert: the angle, for
    [math.radians], and the scaled distance, for its product with a float. *)
Definition drawable (st : State) : Prop :=
  fits_float (i_angle st) /\ fits_float (i_distance st * PIXELS_PER_CM).

(** An argument of [processing_to_screen]: an [int] or a [float]. *)
Inductive number := PyInt (n : Z) | PyFloat (f : float).

(** [float(n)] for an integer from 0 to [2^53], which is exact; the two
    coordinates of the centre are such. *)
Definition float_of_int (n : Z) : float := of_uint63 (Uint63.of_Z n).

(** [a + x] and [a - x] for an [int] [a]: on an [int] the exact sum, on a
    [float] the binary64 sum of [float(a)] and [x]. *)
Definition int_add (a : Z) (x : number) : number :=
  match x with
  | PyInt n => PyInt (a + n)
  | PyFloat f => PyFloat (float_of_int a + f)%float
  end.

Definition int_sub (a : Z) (x : number) : number :=
  match x with
  | PyInt n => PyInt (a - n)
  | PyFloat f => PyFloat (float_of_int a - f)%float
  end.

(** The integer part, towards zero, of the float of sign [s], mantissa [m]
    and exponent [e]: of [m * 2^e], negated when [s] is set. *)
Definition int_of_finite (s : bool) (m : positive) (e : Z) : Z :=
  let magnitude :=
    if (0 <=? e)%Z then (Z.pos m * 2 ^ e)%Z else (Z.pos m / 2 ^ (- e))%Z in
  if s then (- magnitude)%Z else magnitude.

(** [int(f)] for a float: [None] stands for the [OverflowError] on an
    infinity and the [ValueError] on a NaN. *)
Definition int_of_float (f : float) : option Z :=
  match Prim2SF f with
  | S754_zero _ => Some 0%Z
  | S754_finite s m e => Some (int_of_finite s m e)
  | S754_infinity _ | S754_nan => None
  end.

(** [int(x)] *)
Definition int_of_number (x : number) : option Z :=
  match x with
  | PyInt n => Some n
  | PyFloat f => int_of_float f
  end.

(** Lines 78-88. *)
Definition processing_to_screen (x_local y_local : number)
  : option (Z * Z) :=
  let x_screen := int_add RADAR_CX x_local in
  let y_screen := int_sub RADAR_CY y_local in
  match int_of_number x_screen, int_of_number y_screen with
  | Some px, Some py => Some (px, py)
  | _, _ => None
  end.

(** A float that is neither an infinity nor a NaN. *)
Definition finite (f : float) : bool :=
  match Prim2SF f with
  | S754_zero _ | S754_finite _ _ _ => true
  | S754_infinity _ | S754_nan => false
  end.

(** What "the float [f] truncated to the integer [n]" says, in exact
    integer arithmetic: [f] is a zero and [n] is 0, or [f] is
    [(-1)^s * m * 2^e], [n] has its sign and the magnitude [a] of [n] is the
    integer part of [m * 2^e]: [a <= m * 2^e < a + 1]. *)
Definition truncated (f : float) (n : Z) : Prop :=
  match Prim2SF f with
  | S754_zero _ => n = 0%Z
  | S754_finite s m e =>
      exists a : Z,
        (0 <= a)%Z /\ n = (if s then (- a)%Z else a) /\
        (a * 2 ^ Z.max 0 (- e) <= Z.pos m * 2 ^ Z.max 0 e
         < (a + 1) * 2 ^ Z.max 0 (- e))%Z
  | S754_infinity _ | S754_nan => False
  end.

(** [115 * math.sin(math.radians(180))], the y coordinate [draw_object]
    computes for the sample (180, 23): about 1.408e-14. *)
Definition y_at_180_23 : float := 0x1.fb68ca3c8955dp-47%float.

(** A point left of and below the canvas: the sums are -1.5 and -1.5. *)
Definition x_off_canvas : float := (-241.5)%float.
Definition y_off_canvas : float := 211.5%float.

End FloatProjector.

(** * Properties of the decoder *)

Import PyText Utf8 Decoder.

(** ** Cutting a text at a character *)

Section Split.

Variable c : N.

Lemma contains_app (s t : str) :
  contains c (s ++ t) = contains c s || contains c t.
Proof. apply existsb_app. Qed.

Lemma split1_None (s : str) : split1 c s = None <-> contains c s = false.
Proof.
  induction s as [|x r IH]; simpl; [tauto|].
  rewrite (N.eqb_sym c x).
  destruct (N.eqb x c); simpl.
  - split; discriminate.
  - destruct (split1 c r) as [[a b]|].
    + split; [discriminate|]. intros H. apply IH in H. discriminate.
    + tauto.
Qed.

Lemma split1_Some (s a b : str) :
  split1 c s = Some (a, b) -> s = a ++ c :: b /\ contains c a = false.
Proof.
  revert a b. induction s as [|x r IH]; simpl; intros a b H; [discriminate|].
  destruct (N.eqb_spec x c) as [->|Hne].
  - inversion H; subst. auto.
  - destruct (split1 c r) as [[a' b']|]; [|discriminate].
    inversion H; subst. destruct (IH _ _ eq_refl) as [-> Ha].
    split; [reflexivity|]. simpl. rewrite Ha.
    destruct (N.eqb_spec c x); [congruence|reflexivity].
Qed.

Lemma split1_first (m rest : str) :
  contains c m = false -> split1 c (m ++ c :: rest) = Some (m, rest).
Proof.
  induction m as [|x r IH]; simpl.
  - now rewrite N.eqb_refl.
  - rewrite (N.eqb_sym c x). destruct (N.eqb x c); simpl; [discriminate|].
    intros H. now rewrite (IH H).
Qed.

Lemma contains_mid (m rest : str) : contains c (m ++ c :: rest) = true.
Proof.
  rewrite contains_app. simpl. rewrite N.eqb_refl. apply orb_true_r.
Qed.

Lemma split1_app (s t a b : str) :
  split1 c s = Some (a, b) -> split1 c (s ++ t) = Some (a, b ++ t).
Proof.
  intros H. destruct (split1_Some _ H) as [-> Ha].
  rewrite <- app_assoc. simpl. now apply split1_first.
Qed.

Lemma split1_shorter (s a b : str) :
  split1 c s = Some (a, b) -> (List.length b < List.length s)%nat.
Proof.
  intros H. destruct (split1_Some _ H) as [-> _].
  rewrite length_app. simpl. lia.
Qed.

End Split.

(** ** One message *)

Lemma set_buffer_set_buffer (b b' : str) (st : State) :
  set_buffer b (set_buffer b' st) = set_buffer b st.
Proof. reflexivity. Qed.

Lemma set_buffer_same (st : State) : set_buffer (serial_buffer st) st = st.
Proof. now destruct st. Qed.

(** The parse of a message neither reads nor writes the buffer. *)
Lemma parse_message_set_buffer (msg b : str) (st : State) :
  parse_message msg (set_buffer b st) =
  (set_buffer b (fst (parse_message msg st)), snd (parse_message msg st)).
Proof.
  unfold parse_message.
  destruct (contains COMMA msg); [|reflexivity].
  destruct (split1 COMMA msg) as [[a d]|]; [|reflexivity].
  destruct (py_int (strip a)); [|reflexivity].
  destruct (py_int (strip d)); reflexivity.
Qed.

Lemma parse_message_buffer (msg : str) (st : State) :
  serial_buffer (fst (parse_message msg st)) = serial_buffer st.
Proof.
  unfold parse_message.
  destruct (contains COMMA msg); [|reflexivity].
  destruct (split1 COMMA msg) as [[a d]|]; [|reflexivity].
  destruct (py_int (strip a)); [|reflexivity].
  destruct (py_int (strip d)); reflexivity.
Qed.

(** A message that yields no sample leaves the distance as it was. *)
Lemma parse_message_silent_distance (msg : str) (st : State) :
  snd (parse_message msg st) = [] ->
  i_distance (fst (parse_message msg st)) = i_distance st.
Proof.
  unfold parse_message.
  destruct (contains COMMA msg); [|reflexivity].
  destruct (split1 COMMA msg) as [[a d]|]; [|reflexivity].
  destruct (py_int (strip a)); [|reflexivity].
  destruct (py_int (strip d)); [discriminate|reflexivity].
Qed.

(** A message without a comma, or whose angle field is not a number,
    leaves the sample as it was. *)
Lemma parse_message_rejected (msg : str) (st : State) :
  (contains COMMA msg = false \/
   exists a d, split1 COMMA msg = Some (a, d) /\ py_int (strip a) = None) ->
  sample (fst (parse_message msg st)) = sample st /\
  snd (parse_message msg st) = [].
Proof.
  unfold parse_message. intros [H | (a & d & Hs & Ha)].
  - now rewrite H.
  - rewrite Hs, Ha. destruct (contains COMMA msg); auto.
Qed.

(** A message whose angle field is a number and whose distance field is
    not: the angle is stored, the distance is kept, no sample is recorded. *)
Lemma parse_message_angle_alone (msg a d : str) (v : Z) (st : State) :
  split1 COMMA msg = Some (a, d) ->
  py_int (strip a) = Some v -> py_int (strip d) = None ->
  sample (fst (parse_message msg st)) = (v, i_distance st) /\
  snd (parse_message msg st) = [].
Proof.
  intros Hs Ha Hd. unfold parse_message. rewrite Hs, Ha, Hd.
  destruct (contains COMMA msg) eqn:Ec; [auto|].
  apply split1_None in Ec. congruence.
Qed.

(** ** The loop *)

(** Fuel beyond the length of the buffer changes nothing. *)
Lemma process_messages_fuel (f1 f2 : nat) (st : State) :
  (List.length (serial_buffer st) <= f1)%nat ->
  (List.length (serial_buffer st) <= f2)%nat ->
  process_messages f1 st = process_messages f2 st.
Proof.
  revert f2 st. induction f1 as [|f1 IH]; intros f2 st H1 H2.
  - destruct (serial_buffer st) eqn:E; [|simpl in H1; lia].
    destruct f2; simpl; [reflexivity|]. now rewrite E.
  - destruct f2 as [|f2].
    + destruct (serial_buffer st) eqn:E; [|simpl in H2; lia].
      simpl. now rewrite E.
    + simpl. destruct (contains DOT (serial_buffer st)); [|reflexivity].
      destruct (split1 DOT (serial_buffer st)) as [[msg rest]|] eqn:E;
        [|reflexivity].
      apply split1_shorter in E.
      rewrite parse_message_set_buffer.
      set (st1 := set_buffer rest (fst (parse_message msg st))).
      rewrite (IH f2 st1); [reflexivity| |]; simpl; lia.
Qed.

(** One round of the loop, as the source writes it. *)
Lemma while_loop_unfold (st : State) :
  while_loop st =
  if contains DOT (serial_buffer st) then
    match split1 DOT (serial_buffer st) with
    | Some (msg, rest) =>
        let (st1, out1) := parse_message msg (set_buffer rest st) in
        let (st2, out2) := while_loop st1 in
        (st2, out1 ++ out2)
    | None => (st, [])
    end
  else (st, []).
Proof.
  unfold while_loop.
  destruct (List.length (serial_buffer st)) as [|n] eqn:En.
  - destruct (serial_buffer st); [reflexivity|discriminate].
  - simpl. destruct (contains DOT (serial_buffer st)); [|reflexivity].
    destruct (split1 DOT (serial_buffer st)) as [[msg rest]|] eqn:E;
      [|reflexivity].
    apply split1_shorter in E.
    rewrite parse_message_set_buffer.
    set (st1 := set_buffer rest (fst (parse_message msg st))).
    rewrite (@process_messages_fuel n (List.length (serial_buffer st1)) st1);
      [reflexivity| |]; simpl; lia.
Qed.

(** Induction on the rounds of the loop. *)
Lemma while_loop_ind (P : State -> State * list Sample -> Prop) :
  (forall st, contains DOT (serial_buffer st) = false -> P st (st, [])) ->
  (forall st msg rest,
      split1 DOT (serial_buffer st) = Some (msg, rest) ->
      let st1 := set_buffer rest (fst (parse_message msg st)) in
      P st1 (while_loop st1) ->
      P st (fst (while_loop st1),
            snd (parse_message msg st) ++ snd (while_loop st1))) ->
  forall st, P st (while_loop st).
Proof.
  intros Hexit Hstep st.
  remember (List.length (serial_buffer st)) as n eqn:En.
  assert (Hn : (List.length (serial_buffer st) <= n)%nat) by lia.
  clear En. revert st Hn.
  induction n as [|n IH]; intros st Hn; rewrite while_loop_unfold.
  - destruct (serial_buffer st) eqn:E; [|simpl in Hn; lia].
    simpl. apply Hexit. now rewrite E.
  - destruct (contains DOT (serial_buffer st)) eqn:Ec; [|now apply Hexit].
    destruct (split1 DOT (serial_buffer st)) as [[msg rest]|] eqn:E.
    + rewrite parse_message_set_buffer.
      pose proof (split1_shorter _ _ E) as Hlt.
      specialize (Hstep st msg rest E). cbv zeta in Hstep.
      destruct (while_loop (set_buffer rest (fst (parse_message msg st))))
        as [st2 out2] eqn:Ew.
      simpl in Hstep. apply Hstep. rewrite <- Ew. apply IH. simpl. lia.
    + apply split1_None in E. congruence.
Qed.

(** The loop stops only on a buffer without terminator. *)
Lemma while_loop_exit (st : State) :
  contains DOT (serial_buffer (fst (while_loop st))) = false.
Proof.
  apply (while_loop_ind
           (fun _ r => contains DOT (serial_buffer (fst r)) = false)).
  - auto.
  - intros st0 msg rest _ st1 H. exact H.
Qed.

(** As long as no sample is decoded the distance is unchanged. *)
Lemma while_loop_silent_distance (st : State) :
  snd (while_loop st) = [] ->
  i_distance (fst (while_loop st)) = i_distance st.
Proof.
  apply (while_loop_ind
           (fun s r => snd r = [] -> i_distance (fst r) = i_distance s)).
  - auto.
  - intros st0 msg rest _ st1 IH H. simpl in *.
    apply app_eq_nil in H. destruct H as [H1 H2].
    rewrite (IH H2). unfold st1. simpl.
    now apply parse_message_silent_distance.
Qed.

(** Text that arrives later can wait: the loop on a buffer followed by [t]
    is the loop on the buffer, then the loop on what it left followed by
    [t]. *)
Lemma while_loop_app (t : str) (st : State) :
  while_loop (set_buffer (serial_buffer st ++ t) st) =
  let (s1, o1) := while_loop st in
  let (s2, o2) := while_loop (set_buffer (serial_buffer s1 ++ t) s1) in
  (s2, o1 ++ o2).
Proof.
  remember (List.length (serial_buffer st)) as n eqn:En.
  assert (Hn : (List.length (serial_buffer st) <= n)%nat) by lia.
  clear En. revert st Hn.
  induction n as [|n IH]; intros st Hn.
  - rewrite (while_loop_unfold st).
    destruct (serial_buffer st) eqn:Eb; [|simpl in Hn; lia].
    simpl. rewrite Eb. simpl.
    destruct (while_loop (set_buffer t st)); reflexivity.
  - rewrite (while_loop_unfold st).
    destruct (contains DOT (serial_buffer st)) eqn:Ec.
    + destruct (split1 DOT (serial_buffer st)) as [[msg rest]|] eqn:E;
        [|apply split1_None in E; congruence].
      rewrite (while_loop_unfold (set_buffer (serial_buffer st ++ t) st)).
      simpl serial_buffer.
      rewrite contains_app, Ec. simpl orb.
      rewrite (@split1_app DOT _ t _ _ E).
      rewrite set_buffer_set_buffer, !parse_message_set_buffer.
      set (p := fst (parse_message msg st)).
      set (o := snd (parse_message msg st)).
      pose proof (IH (set_buffer rest p)) as IH'. simpl serial_buffer in IH'.
      rewrite set_buffer_set_buffer in IH'. rewrite IH'.
      * destruct (while_loop (set_buffer rest p)) as [sa oa].
        destruct (while_loop (set_buffer (serial_buffer sa ++ t) sa))
          as [sb ob].
        now rewrite app_assoc.
      * apply split1_shorter in E. lia.
    + destruct (while_loop (set_buffer (serial_buffer st ++ t) st));
        reflexivity.
Qed.

(** ** The codec *)

Lemma lit_bytes (s : string) : text_of (bytes s) = lit s.
Proof.
  unfold text_of, bytes, lit, list_byte_of_string.
  rewrite map_map. apply map_ext. intros a.
  unfold N_of_ascii. destruct a as [[] [] [] [] [] [] [] []]; reflexivity.
Qed.

Ltac decode_cases H :=
  repeat
    match type of H with
    | context [if ?c then _ else _] => destruct c eqn:?
    | context [match ?r with [] => _ | _ :: _ => _ end] => destruct r
    | on_error Strict _ = Some _ => discriminate H
    end.

(** With [errors="ignore"] the codec never raises. *)
Lemma decode_ignore_total (bs : list byte) :
  exists text, decode Ignore bs = Some text.
Proof.
  remember (List.length bs) as n eqn:En.
  assert (Hn : (List.length bs <= n)%nat) by lia. clear En.
  revert bs Hn. induction n as [|n IH]; intros bs Hn.
  - destruct bs; [now exists []|simpl in Hn; lia].
  - destruct bs as [|b0 r]; [now exists []|].
    simpl in Hn.
    assert (Hemit : forall c rest, (List.length rest <= n)%nat ->
                      exists text, emit c (decode Ignore rest) = Some text).
    { intros c rest Hr. destruct (IH rest Hr) as [t ->]. now eexists. }
    cbn [decode on_error].
    repeat
      match goal with
      | |- context [if ?c then _ else _] => destruct c
      | |- context [match ?l with [] => _ | _ :: _ => _ end] => destruct l
      | |- exists text, Some _ = Some text => now eexists
      | |- exists text, emit _ _ = Some text =>
          apply Hemit; simpl in *; lia
      | |- exists text, decode Ignore _ = Some text =>
          apply IH; simpl in *; lia
      end.
Qed.

Lemma decode_ascii (e : errors) (bs : list byte) :
  forallb is_ascii bs = true -> decode e bs = Some (text_of bs).
Proof.
  induction bs as [|b r IH]; [reflexivity|].
  simpl forallb. intros H. apply andb_prop in H. destruct H as [Hb Hr].
  unfold is_ascii in Hb. cbn [decode]. rewrite Hb, (IH Hr). reflexivity.
Qed.

(** Valid text in front of other bytes is decoded as it is alone. *)
Lemma decode_app_valid (e : errors) (c1 c2 : list byte) (t1 : str) :
  decode Strict c1 = Some t1 ->
  decode e (c1 ++ c2) =
  match decode e c2 with Some t2 => Some (t1 ++ t2) | None => None end.
Proof.
  remember (List.length c1) as n eqn:En.
  assert (Hn : (List.length c1 <= n)%nat) by lia. clear En.
  revert c1 t1 Hn. induction n as [|n IH]; intros c1 t1 Hn H.
  - destruct c1; [|simpl in Hn; lia]. inversion H; subst. simpl.
    now destruct (decode e c2).
  - destruct c1 as [|b0 r].
    { inversion H; subst. simpl. now destruct (decode e c2). }
    simpl in Hn.
    assert (Hemit : forall c rest t,
               (List.length rest <= n)%nat ->
               emit c (decode Strict rest) = Some t ->
               emit c (decode e (rest ++ c2)) =
               match decode e c2 with
               | Some t2 => Some (t ++ t2) | None => None end).
    { intros c rest t Hr Ht.
      destruct (decode Strict rest) as [t'|] eqn:Et; [|discriminate].
      inversion Ht; subst. rewrite (IH rest t' Hr Et).
      now destruct (decode e c2). }
    cbn [decode] in H. cbn [app decode].
    decode_cases H; cbn [app];
      repeat
        match goal with
        | Hc : ?c = false |- context [if ?c then _ else _] => rewrite Hc
        | Hc : ?c = true |- context [if ?c then _ else _] => rewrite Hc
        end;
      apply Hemit; trivial; simpl in *; lia.
Qed.

Lemma decode_strict_ignore (bs : list byte) (t : str) :
  decode Strict bs = Some t -> decode Ignore bs = Some t.
Proof.
  intros H. rewrite <- (app_nil_r bs), (@decode_app_valid Ignore bs [] t H).
  simpl. now rewrite app_nil_r.
Qed.

(** ** One call of [read_serial] *)

Lemma read_serial_nil (st : State) : read_serial [] st = (st, []).
Proof. reflexivity. Qed.

(** A call that receives bytes always reaches the loop: the [except]
    branch is never taken. *)
Lemma read_serial_cons (b : byte) (bs : list byte) (st : State) :
  exists text,
    decode Ignore (b :: bs) = Some text /\
    read_serial (b :: bs) st =
    while_loop (set_buffer (serial_buffer st ++ text) st).
Proof.
  destruct (decode_ignore_total (b :: bs)) as [text H].
  exists text. split; [exact H|].
  unfold read_serial. now rewrite H.
Qed.

Lemma read_serial_text (chunk : list byte) (text : str) (st : State) :
  chunk <> [] -> decode Ignore chunk = Some text ->
  read_serial chunk st =
  while_loop (set_buffer (serial_buffer st ++ text) st).
Proof.
  intros Hne H. destruct chunk as [|b bs]; [congruence|].
  unfold read_serial. now rewrite H.
Qed.

Lemma read_serial_exit (b : byte) (bs : list byte) (st : State) :
  contains DOT (serial_buffer (fst (read_serial (b :: bs) st))) = false.
Proof.
  destruct (read_serial_cons b bs st) as (text & _ & ->).
  apply while_loop_exit.
Qed.

(** Two chunks that are each valid text, fed one after the other or as
    one. *)
Lemma read_serial_app (c1 c2 : list byte) (st : State) :
  decodable c1 -> decodable c2 ->
  read_serial (c1 ++ c2) st =
  let (s1, o1) := read_serial c1 st in
  let (s2, o2) := read_serial c2 s1 in
  (s2, o1 ++ o2).
Proof.
  unfold decodable. intros H1 H2.
  destruct c1 as [|b1 r1].
  { simpl. now destruct (read_serial c2 st). }
  destruct c2 as [|b2 r2].
  { rewrite app_nil_r. destruct (read_serial (b1 :: r1) st).
    simpl. now rewrite app_nil_r. }
  destruct (decode Strict (b1 :: r1)) as [t1|] eqn:E1; [|congruence].
  destruct (decode Strict (b2 :: r2)) as [t2|] eqn:E2; [|congruence].
  pose proof (decode_strict_ignore _ E1) as I1.
  pose proof (decode_strict_ignore _ E2) as I2.
  assert (I12 : decode Ignore ((b1 :: r1) ++ b2 :: r2) = Some (t1 ++ t2)).
  { rewrite (@decode_app_valid Ignore _ (b2 :: r2) _ E1). now rewrite I2. }
  assert (N1 : b1 :: r1 <> []) by discriminate.
  assert (N2 : b2 :: r2 <> []) by discriminate.
  assert (N12 : (b1 :: r1) ++ b2 :: r2 <> []) by discriminate.
  rewrite (read_serial_text st N12 I12), (read_serial_text st N1 I1).
  pose proof (while_loop_app t2 (set_buffer (serial_buffer st ++ t1) st))
    as W.
  simpl serial_buffer in W. rewrite set_buffer_set_buffer in W.
  rewrite <- app_assoc in W. rewrite W.
  destruct (while_loop (set_buffer (serial_buffer st ++ t1) st)) as [s1 o1].
  now rewrite (read_serial_text s1 N2 I2).
Qed.

Lemma decodable_app (c1 c2 : list byte) :
  decodable c1 -> decodable c2 -> decodable (c1 ++ c2).
Proof.
  unfold decodable. intros H1 H2.
  destruct (decode Strict c1) as [t1|] eqn:E1; [|congruence].
  rewrite (@decode_app_valid Strict _ c2 _ E1).
  now destruct (decode Strict c2).
Qed.

Lemma decodable_concat (chunks : list (list byte)) :
  Forall decodable chunks -> decodable (List.concat chunks).
Proof.
  induction 1 as [|c cs Hc _ IH]; simpl.
  - unfold decodable. simpl. discriminate.
  - now apply decodable_app.
Qed.

Lemma decodable_ascii (bs : list byte) :
  forallb is_ascii bs = true -> decodable bs.
Proof.
  intros H. unfold decodable. now rewrite (decode_ascii Strict _ H).
Qed.

(** Feeding chunks of valid text one by one is feeding them as one. *)
Lemma feed_all_concat (chunks : list (list byte)) (st : State) :
  Forall decodable chunks ->
  feed_all chunks st = read_serial (List.concat chunks) st.
Proof.
  intros H. revert st. induction H as [|c cs Hc Hcs IH]; intros st.
  - reflexivity.
  - simpl. rewrite (read_serial_app st Hc (decodable_concat Hcs)).
    destruct (read_serial c st) as [s1 o1]. now rewrite IH.
Qed.

Lemma ascii_chunks (chunks : list (list byte)) :
  forallb is_ascii (List.concat chunks) = true -> Forall decodable chunks.
Proof.
  induction chunks as [|c cs IH]; simpl; intros H; constructor.
  - rewrite forallb_app in H. apply andb_prop in H.
    apply decodable_ascii, H.
  - rewrite forallb_app in H. apply andb_prop in H. apply IH, H.
Qed.

(** ** Several messages in one chunk *)

Lemma parse_all_buffer (msgs : list str) (st : State) :
  serial_buffer (fst (parse_all msgs st)) = serial_buffer st.
Proof.
  revert st. induction msgs as [|m ms IH]; intros st; [reflexivity|].
  simpl. pose proof (parse_message_buffer m st) as Hm.
  destruct (parse_message m st) as [s1 o1]. simpl in Hm.
  specialize (IH s1). destruct (parse_all ms s1) as [s2 o2].
  simpl in *. congruence.
Qed.

(** The loop on a buffer made of whole messages parses each of them, in
    order, and leaves the buffer empty. *)
Lemma while_loop_frames (msgs : list str) (st : State) :
  Forall (fun m => contains DOT m = false) msgs ->
  while_loop
    (set_buffer (List.concat (map (fun m => m ++ [DOT]) msgs)) st) =
  (set_buffer [] (fst (parse_all msgs st)), snd (parse_all msgs st)).
Proof.
  intros H. revert st. induction H as [|m ms Hm _ IH]; intros st.
  - simpl. rewrite while_loop_unfold. reflexivity.
  - rewrite while_loop_unfold. simpl serial_buffer. simpl List.concat.
    rewrite <- app_assoc. simpl app.
    rewrite contains_mid, (@split1_first DOT m _ Hm).
    rewrite set_buffer_set_buffer, parse_message_set_buffer.
    simpl parse_all.
    destruct (parse_message m st) as [s1 o1]. simpl fst. simpl snd.
    rewrite IH. now destruct (parse_all ms s1).
Qed.

Lemma text_of_frames (payloads : list (list byte)) :
  text_of (List.concat (map frame payloads)) =
  List.concat (map (fun m => m ++ [DOT]) (map text_of payloads)).
Proof.
  induction payloads as [|p ps IH]; [reflexivity|].
  simpl. unfold text_of in *. rewrite map_app, IH.
  unfold frame at 1. now rewrite map_app.
Qed.

Lemma ascii_frames (payloads : list (list byte)) :
  Forall (fun p => forallb is_ascii p = true) payloads ->
  forallb is_ascii (List.concat (map frame payloads)) = true.
Proof.
  induction 1 as [|p ps Hp _ IH]; [reflexivity|].
  simpl. unfold frame at 1. rewrite !forallb_app, Hp, IH. reflexivity.
Qed.

(** * The claims on the decoder *)

(** C1 (defect of the code).  The claim: a message that does not parse as
    two integers leaves angle and distance as they were.  The code assigns
    the angle before it reads the distance: after the sample (45, 12), the
    message ["30,12,99"] yields no sample, yet the angle becomes 30 while the
    distance stays 12. *)
Theorem C1_extra_comma_updates_the_angle_alone :
  sample (fst (read_serial (bytes "45,12.") initial)) = (45, 12)%Z /\
  read_serial (bytes "30,12,99.") (fst (read_serial (bytes "45,12.") initial))
  = (mkState [] (lit "30") (lit "12,99") 30 12, []).
Proof. split; vm_compute; reflexivity. Qed.

(** C10.  After a call of [read_serial] that received bytes, and after any
    sequence of calls from the start of the program, the buffer holds no
    terminator. *)
Theorem C10_no_terminator_left_in_buffer :
  (forall (b : byte) (bs : list byte) (st : State),
      contains DOT (serial_buffer (fst (read_serial (b :: bs) st))) = false)
  /\
  (forall chunks : list (list byte),
      contains DOT (serial_buffer (fst (feed_all chunks initial))) = false).
Proof.
  split; [exact read_serial_exit|].
  assert (G : forall chunks st,
             contains DOT (serial_buffer st) = false ->
             contains DOT (serial_buffer (fst (feed_all chunks st))) = false).
  { induction chunks as [|c cs IH]; intros st Hst; [exact Hst|].
    simpl.
    assert (H1 : contains DOT (serial_buffer (fst (read_serial c st)))
                 = false).
    { destruct c as [|b bs]; [exact Hst|apply read_serial_exit]. }
    destruct (read_serial c st) as [s1 o1]. simpl in H1.
    specialize (IH s1 H1). now destruct (feed_all cs s1). }
  intros chunks. now apply G.
Qed.

(** C4.  A chunk made of whole messages (ASCII payloads without ['.'], each
    followed by ['.']) received on an empty buffer: every message is parsed,
    in the order of the chunk, within the call.  For ["010,005.020,999."] the
    samples are (10, 5) then (20, 999), and (20, 999) is the sample left. *)
Theorem C4_every_message_of_a_chunk_is_processed_in_order :
  (forall (payloads : list (list byte)) (st : State),
      payloads <> [] ->
      Forall (fun p => forallb is_ascii p = true /\
                       contains DOT (text_of p) = false) payloads ->
      serial_buffer st = [] ->
      read_serial (List.concat (map frame payloads)) st
      = parse_all (map text_of payloads) st)
  /\
  read_serial (bytes "010,005.020,999.") initial
  = (mkState [] (lit "020") (lit "999") 20 999, [(10, 5); (20, 999)]%Z).
Proof.
  split; [|vm_compute; reflexivity].
  intros payloads st Hne Hall Hbuf.
  assert (Hascii : Forall (fun p => forallb is_ascii p = true) payloads).
  { eapply Forall_impl; [|exact Hall]. now intros p [H _]. }
  assert (Hdot : Forall (fun m => contains DOT m = false)
                        (map text_of payloads)).
  { apply Forall_map. eapply Forall_impl; [|exact Hall]. now intros p [_ H]. }
  assert (Hchunk : List.concat (map frame payloads) <> []).
  { destruct payloads as [|p ps]; [congruence|].
    simpl. unfold frame at 1. destruct p; discriminate. }
  rewrite (read_serial_text st Hchunk
             (decode_ascii Ignore _ (ascii_frames Hascii))).
  rewrite Hbuf. simpl app. rewrite text_of_frames.
  rewrite (while_loop_frames st Hdot).
  pose proof (parse_all_buffer (map text_of payloads) st) as Hb.
  destruct (parse_all (map text_of payloads) st) as [s o].
  simpl in *. rewrite <- Hbuf, <- Hb. now rewrite set_buffer_same.
Qed.

(** The hypotheses of C4 hold for the two payloads of the example. *)
Lemma C4_witness :
  [bytes "010,005"; bytes "020,999"] <> [] /\
  Forall (fun p => forallb is_ascii p = true /\
                   contains DOT (text_of p) = false)
         [bytes "010,005"; bytes "020,999"] /\
  serial_buffer initial = [] /\
  read_serial (List.concat (map frame [bytes "010,005"; bytes "020,999"]))
              initial
  = parse_all (map text_of [bytes "010,005"; bytes "020,999"]) initial.
Proof.
  assert (H1 : [bytes "010,005"; bytes "020,999"] <> []) by discriminate.
  assert (H2 : Forall (fun p => forallb is_ascii p = true /\
                                contains DOT (text_of p) = false)
                      [bytes "010,005"; bytes "020,999"]).
  { repeat constructor. }
  assert (H3 : serial_buffer initial = []) by reflexivity.
  refine (conj H1 (conj H2 (conj H3 _))).
  exact (proj1 C4_every_message_of_a_chunk_is_processed_in_order
               _ initial H1 H2 H3).
Defined.

(** C3 (amended).  Feeding chunks that are each valid text, so that no cut
    falls inside a character, gives the samples and the final state of
    feeding their concatenation in one call.  Every cut of an ASCII sequence
    is such: any split of ["045,012."] yields the one sample (45, 12), and
    ["07,1"] followed by ["5."] yields the one sample (7, 15). *)
Theorem C3_feeding_in_chunks_of_valid_text :
  (forall (chunks : list (list byte)) (st : State),
      Forall decodable chunks ->
      feed_all chunks st = read_serial (List.concat chunks) st)
  /\
  (forall chunks : list (list byte),
      List.concat chunks = bytes "045,012." ->
      feed_all chunks initial
      = (mkState [] (lit "045") (lit "012") 45 12, [(45, 12)%Z]))
  /\
  feed_all [bytes "07,1"; bytes "5."] initial
  = (mkState [] (lit "07") (lit "15") 7 15, [(7, 15)%Z]).
Proof.
  split; [exact feed_all_concat|]. split; [|vm_compute; reflexivity].
  intros chunks H.
  rewrite feed_all_concat.
  - rewrite H. vm_compute. reflexivity.
  - apply ascii_chunks. rewrite H. reflexivity.
Qed.

(** The hypothesis of C3 holds for a cut of ["045,012."] in three. *)
Lemma C3_witness :
  Forall decodable [bytes "045"; bytes ",0"; bytes "12."] /\
  feed_all [bytes "045"; bytes ",0"; bytes "12."] initial
  = read_serial (List.concat [bytes "045"; bytes ",0"; bytes "12."]) initial.
Proof.
  assert (H : Forall decodable [bytes "045"; bytes ",0"; bytes "12."]).
  { repeat constructor; unfold decodable; vm_compute; discriminate. }
  exact (conj H (proj1 C3_feeding_in_chunks_of_valid_text _ initial H)).
Defined.

(** C3 as stated fails: the bytes of ["1é,2."] fed whole decode no sample
    (the angle field ["1é"] is no number); cut inside the two bytes of
    ['é'], each half of the character is dropped and the sample (1, 2) is
    decoded. *)
Lemma C3_counterexample :
  List.concat [[x31; xc3]; [xa9; x2c; x32; x2e]]
  = [x31; xc3; xa9; x2c; x32; x2e] /\
  read_serial [x31; xc3; xa9; x2c; x32; x2e] initial
  = (mkState [] [49; 233]%N (lit "2") 0 0, []) /\
  feed_all [[x31; xc3]; [xa9; x2c; x32; x2e]] initial
  = (mkState [] (lit "1") (lit "2") 1 2, [(1, 2)%Z]) /\
  feed_all [[x31; xc3]; [xa9; x2c; x32; x2e]] initial
  <> read_serial (List.concat [[x31; xc3]; [xa9; x2c; x32; x2e]]) initial.
Proof.
  repeat split; try (vm_compute; reflexivity).
  vm_compute. discriminate.
Qed.

(** * Properties of the projection *)

Import Projector.

Section Truncation.

Local Open Scope R_scope.

Lemma Int_part_bounds (r : R) :
  IZR (Int_part r) <= r < IZR (Int_part r) + 1.
Proof. destruct (base_Int_part r). lra. Qed.

Lemma Int_part_IZR (z : Z) : Int_part (IZR z) = z.
Proof. symmetry. apply Int_part_spec. lra. Qed.

Lemma Int_part_le (x y : R) : x <= y -> (Int_part x <= Int_part y)%Z.
Proof.
  intros H. pose proof (Int_part_bounds x). pose proof (Int_part_bounds y).
  assert (L : IZR (Int_part x) < IZR (Int_part y + 1)).
  { rewrite plus_IZR. lra. }
  apply lt_IZR in L. lia.
Qed.

Lemma Int_part_nonneg (x : R) : 0 <= x -> (0 <= Int_part x)%Z.
Proof.
  intros H. rewrite <- (Int_part_IZR 0). now apply Int_part_le.
Qed.

Lemma int_of_float_IZR (z : Z) : int_of_float (IZR z) = z.
Proof.
  unfold int_of_float. destruct (Rle_dec 0 (IZR z)).
  - apply Int_part_IZR.
  - rewrite <- opp_IZR, Int_part_IZR. lia.
Qed.

Lemma int_of_float_le (x y : R) :
  x <= y -> (int_of_float x <= int_of_float y)%Z.
Proof.
  intros H. unfold int_of_float.
  destruct (Rle_dec 0 x) as [Hx|Hx], (Rle_dec 0 y) as [Hy|Hy].
  - now apply Int_part_le.
  - lra.
  - assert (0 <= Int_part (- x))%Z by (apply Int_part_nonneg; lra).
    assert (0 <= Int_part y)%Z by now apply Int_part_nonneg.
    lia.
  - assert (Int_part (- y) <= Int_part (- x))%Z by (apply Int_part_le; lra).
    lia.
Qed.

Lemma int_of_float_between (lo hi : Z) (x : R) :
  IZR lo <= x <= IZR hi -> (lo <= int_of_float x <= hi)%Z.
Proof.
  intros [H1 H2].
  rewrite <- (int_of_float_IZR lo) at 1. rewrite <- (int_of_float_IZR hi).
  split; now apply int_of_float_le.
Qed.

End Truncation.

Section Angles.

Local Open Scope R_scope.

Lemma radians_range (deg : R) :
  0 <= deg <= 180 -> 0 <= radians deg <= PI.
Proof.
  intros [H0 H1]. unfold radians. pose proof PI_RGT_0 as P. split.
  - apply Rmult_le_pos; lra.
  - replace PI with (180 * (PI / 180)) at 2 by field.
    apply Rmult_le_compat_r; lra.
Qed.

Lemma radians_le (a b : R) : a <= b -> radians a <= radians b.
Proof.
  intros H. unfold radians. pose proof PI_RGT_0.
  apply Rmult_le_compat_r; lra.
Qed.

Lemma radians_90 : radians 90 = PI / 2.
Proof. unfold radians. field. Qed.

Lemma radians_0 : radians 0 = 0.
Proof. unfold radians. ring. Qed.

(** The local coordinates of a point of the upper half disc. *)
Lemma polar_to_local_range (deg radius limit : R) :
  0 <= deg <= 180 -> 0 <= radius <= limit ->
  - limit <= fst (polar_to_local deg radius) <= limit /\
  0 <= snd (polar_to_local deg radius) <= limit.
Proof.
  intros Hd [Hr0 Hr1]. apply radians_range in Hd. destruct Hd as [Hd0 Hd1].
  unfold polar_to_local. simpl.
  pose proof (COS_bound (radians deg)) as [C0 C1].
  pose proof (SIN_bound (radians deg)) as [_ S1].
  pose proof (sin_ge_0 _ Hd0 Hd1) as S0.
  assert (radius * cos (radians deg) <= radius * 1)
    by (apply Rmult_le_compat_l; lra).
  assert (radius * -1 <= radius * cos (radians deg))
    by (apply Rmult_le_compat_l; lra).
  assert (radius * sin (radians deg) <= radius * 1)
    by (apply Rmult_le_compat_l; lra).
  assert (0 <= radius * sin (radians deg)) by (apply Rmult_le_pos; lra).
  lra.
Qed.

End Angles.

(** * The claims on the projection *)

(** ** [processing_to_screen] on binary64 floats *)

Section Binary64.

Import FloatProjector.
Import PrimFloat SpecFloat FloatOps.

Lemma int_of_finite_truncated (s : bool) (m : positive) (e : Z) :
  exists a : Z,
    (0 <= a)%Z /\ int_of_finite s m e = (if s then (- a)%Z else a) /\
    (a * 2 ^ Z.max 0 (- e) <= Z.pos m * 2 ^ Z.max 0 e
     < (a + 1) * 2 ^ Z.max 0 (- e))%Z.
Proof.
  unfold int_of_finite. destruct (Z.leb_spec 0 e) as [He|He].
  - exists (Z.pos m * 2 ^ e)%Z.
    rewrite (Z.max_l 0 (- e)) by lia. rewrite (Z.max_r 0 e) by lia.
    pose proof (Z.pow_pos_nonneg 2 e ltac:(lia) He).
    repeat split; try reflexivity; nia.
  - exists (Z.pos m / 2 ^ (- e))%Z.
    rewrite (Z.max_r 0 (- e)) by lia. rewrite (Z.max_l 0 e) by lia.
    assert (Hd : (0 < 2 ^ (- e))%Z) by (apply Z.pow_pos_nonneg; lia).
    pose proof (Z.mul_div_le (Z.pos m) _ Hd).
    pose proof (Z.mul_succ_div_gt (Z.pos m) _ Hd).
    pose proof (Z.div_pos (Z.pos m) _ ltac:(lia) Hd).
    repeat split; try reflexivity; try assumption; change (2 ^ 0)%Z with 1%Z;
      nia.
Qed.

(** [int] of a float returns its truncation, and fails on the infinities
    and the NaNs only. *)
Lemma int_of_float_truncated (f : float) :
  match int_of_float f with
  | Some n => truncated f n
  | None => finite f = false
  end.
Proof.
  unfold int_of_float, truncated, finite.
  destruct (Prim2SF f); try reflexivity.
  apply int_of_finite_truncated.
Qed.

End Binary64.

(** C9.  [processing_to_screen] depends on its two arguments and the fixed
    centre (240, 210) alone.  On integers its result is exactly
    [(240 + x, 210 - y)].  On floats it returns, whenever the two sums are
    finite, the binary64 sums [240 + x_local] and [210 - y_local] each
    truncated to an integer, towards zero; it raises only when a sum is an
    infinity or a NaN.  So the y coordinate of about 1.408e-14 that
    [draw_object] computes for the sample (180, 23) is drawn on row 210, and
    (-241.5, 211.5) on the pixel (-1, -1). *)
Theorem C9_processing_to_screen_offsets_flips_and_truncates :
  (RADAR_CX, RADAR_CY) = (240, 210)%Z /\
  (forall x y : Z,
      FloatProjector.processing_to_screen
        (FloatProjector.PyInt x) (FloatProjector.PyInt y)
      = Some (RADAR_CX + x, RADAR_CY - y)%Z) /\
  (forall x_local y_local : PrimFloat.float,
      match FloatProjector.processing_to_screen
              (FloatProjector.PyFloat x_local)
              (FloatProjector.PyFloat y_local) with
      | Some (pixel_x, pixel_y) =>
          FloatProjector.truncated
            (PrimFloat.add (FloatProjector.float_of_int RADAR_CX) x_local)
            pixel_x /\
          FloatProjector.truncated
            (PrimFloat.sub (FloatProjector.float_of_int RADAR_CY) y_local)
            pixel_y
      | None =>
          FloatProjector.finite
            (PrimFloat.add (FloatProjector.float_of_int RADAR_CX) x_local)
          = false \/
          FloatProjector.finite
            (PrimFloat.sub (FloatProjector.float_of_int RADAR_CY) y_local)
          = false
      end) /\
  FloatProjector.processing_to_screen
    (FloatProjector.PyFloat PrimFloat.zero)
    (FloatProjector.PyFloat FloatProjector.y_at_180_23)
  = Some (240, 210)%Z /\
  FloatProjector.processing_to_screen
    (FloatProjector.PyFloat FloatProjector.x_off_canvas)
    (FloatProjector.PyFloat FloatProjector.y_off_canvas)
  = Some (-1, -1)%Z.
Proof.
  split; [reflexivity|]. split; [reflexivity|]. split.
  - intros x y. unfold FloatProjector.processing_to_screen.
    cbn [FloatProjector.int_add FloatProjector.int_sub
         FloatProjector.int_of_number].
    pose proof (int_of_float_truncated
                  (PrimFloat.add (FloatProjector.float_of_int RADAR_CX) x))
      as Hx.
    pose proof (int_of_float_truncated
                  (PrimFloat.sub (FloatProjector.float_of_int RADAR_CY) y))
      as Hy.
    destruct (FloatProjector.int_of_float
                (PrimFloat.add (FloatProjector.float_of_int RADAR_CX) x));
      [|now left].
    destruct (FloatProjector.int_of_float
                (PrimFloat.sub (FloatProjector.float_of_int RADAR_CY) y));
      [now split|now right].
  - split; vm_compute; reflexivity.
Qed.

(** C7 (amended).  For an angle in [0, 180] degrees and a radius in
    [0, 200] the projected point lies on the 480 x 320 canvas.  As the
    angle decreases from 90 towards 0 degrees the pixel row does not
    decrease: screen rows grow downwards, and truncation can keep
    neighbouring angles on one row. *)
Theorem C7_projection_on_canvas_and_rows_grow_downwards :
  (forall angle radius : R,
      (0 <= angle <= 180)%R -> (0 <= radius <= IZR RADAR_RADIUS)%R ->
      (0 <= fst (polar_to_screen angle radius) < WIDTH)%Z /\
      (0 <= snd (polar_to_screen angle radius) < HEIGHT)%Z)
  /\
  (forall lower upper radius : R,
      (0 <= lower <= upper)%R -> (upper <= 90)%R -> (0 <= radius)%R ->
      (snd (polar_to_screen upper radius)
       <= snd (polar_to_screen lower radius))%Z).
Proof.
  split.
  - intros angle radius Ha Hr.
    destruct (polar_to_local_range Ha Hr) as [Hx Hy].
    unfold polar_to_screen.
    destruct (polar_to_local angle radius) as [x y]. simpl in Hx, Hy.
    unfold processing_to_screen, RADAR_RADIUS in *. simpl.
    assert (Bx : (40 <= int_of_float (IZR RADAR_CX + x) <= 440)%Z).
    { apply int_of_float_between. unfold RADAR_CX. lra. }
    assert (By : (10 <= int_of_float (IZR RADAR_CY - y) <= 210)%Z).
    { apply int_of_float_between. unfold RADAR_CY. lra. }
    unfold WIDTH, HEIGHT. lia.
  - intros lower upper radius [H0 H1] H2 Hr.
    unfold polar_to_screen, polar_to_local, processing_to_screen. simpl.
    apply int_of_float_le.
    assert (S : (sin (radians lower) <= sin (radians upper))%R).
    { pose proof PI_RGT_0.
      assert (0 <= radians lower)%R
        by (rewrite <- radians_0; now apply radians_le).
      assert (radians upper <= PI / 2)%R
        by (rewrite <- radians_90; now apply radians_le).
      pose proof (radians_le H1).
      apply sin_incr_1; lra. }
    assert (radius * sin (radians lower) <= radius * sin (radians upper))%R
      by (apply Rmult_le_compat_l; lra).
    lra.
Qed.

(** The hypotheses of C7 hold at 90 degrees and radius 200. *)
Lemma C7_witness :
  (0 <= 90 <= 180)%R /\ (0 <= 200 <= IZR RADAR_RADIUS)%R /\
  (0 <= fst (polar_to_screen 90 200) < WIDTH)%Z /\
  (0 <= snd (polar_to_screen 90 200) < HEIGHT)%Z.
Proof.
  assert (H1 : (0 <= 90 <= 180)%R) by lra.
  assert (H2 : (0 <= 200 <= IZR RADAR_RADIUS)%R)
    by (unfold RADAR_RADIUS; lra).
  exact (conj H1 (conj H2
           (proj1 C7_projection_on_canvas_and_rows_grow_downwards
                  90%R 200%R H1 H2))).
Defined.

(** C7 as stated fails: at radius 200 the point at 90 degrees is on row 10
    and the point at 0 degrees on row 210; the row grew as the angle
    decreased. *)
Lemma C7_counterexample :
  snd (polar_to_screen 90 200) = 10%Z /\
  snd (polar_to_screen 0 200) = 210%Z /\
  ~ (snd (polar_to_screen 0 200) < snd (polar_to_screen 90 200))%Z.
Proof.
  assert (E90 : snd (polar_to_screen 90 200) = 10%Z).
  { unfold polar_to_screen, polar_to_local, processing_to_screen. simpl.
    rewrite radians_90, sin_PI2.
    replace (IZR RADAR_CY - 200 * 1)%R with (IZR 10)
      by (unfold RADAR_CY; lra).
    apply int_of_float_IZR. }
  assert (E0 : snd (polar_to_screen 0 200) = 210%Z).
  { unfold polar_to_screen, polar_to_local, processing_to_screen. simpl.
    rewrite radians_0, sin_0.
    replace (IZR RADAR_CY - 200 * 0)%R with (IZR 210)
      by (unfold RADAR_CY; lra).
    apply int_of_float_IZR. }
  rewrite E90, E0. repeat split. lia.
Qed.

(** * Properties of the renderer *)

Import Renderer.

Lemma draw_object_below (st : State) :
  (i_distance st < THRESHOLD)%Z -> draw_object st = detection_marker st.
Proof.
  intros H. unfold draw_object. apply Z.ltb_lt in H. now rewrite H.
Qed.

Lemma draw_object_from (st : State) :
  (THRESHOLD <= i_distance st)%Z -> draw_object st = [].
Proof.
  intros H. unfold draw_object. apply Z.ltb_ge in H. now rewrite H.
Qed.

(** The scaled point of a sample at distance zero is the centre. *)
Lemma polar_to_screen_centre (deg : R) :
  polar_to_screen deg 0 = (RADAR_CX, RADAR_CY).
Proof.
  unfold polar_to_screen, polar_to_local, processing_to_screen.
  rewrite !Rmult_0_l, Rplus_0_r, Rminus_0_r, !int_of_float_IZR.
  reflexivity.
Qed.

Lemma read_serial_silent_distance (chunk : list byte) (st : State) :
  snd (read_serial chunk st) = [] ->
  i_distance (fst (read_serial chunk st)) = i_distance st.
Proof.
  destruct chunk as [|b bs]; [reflexivity|].
  destruct (read_serial_cons b bs st) as (text & _ & ->).
  intros H. now rewrite (while_loop_silent_distance _ H).
Qed.

Lemma feed_all_silent_distance (chunks : list (list byte)) (st : State) :
  snd (feed_all chunks st) = [] ->
  i_distance (fst (feed_all chunks st)) = i_distance st.
Proof.
  revert st. induction chunks as [|c cs IH]; intros st; [reflexivity|].
  simpl. pose proof (read_serial_silent_distance c st) as Hc.
  destruct (read_serial c st) as [s1 o1].
  specialize (IH s1). destruct (feed_all cs s1) as [s2 o2].
  simpl in *. intros H. apply app_eq_nil in H. destruct H as [H1 H2].
  rewrite (IH H2). now apply Hc.
Qed.

(** Away from the threshold the status and the distance text agree: the
    placeholder is shown exactly when the status reads ["Out"]. *)
Lemma overlay_agrees_off_threshold (st : State) :
  i_distance st <> 40%Z ->
  (fst (draw_text st) = lit "Out" /\
   txt_dist st = Text font_small (lit "D:---") GREEN_TEXT
                      (TopLeft (5, 240 + 30)%Z))
  \/
  (fst (draw_text st) = lit "In" /\
   txt_dist st = Text font_small
                      (lit "D:" ++ str_of_int (i_distance st) ++ lit "cm")
                      RED (TopLeft (5, 240 + 30)%Z)).
Proof.
  intros H. unfold draw_text, txt_dist. simpl fst.
  destruct (Z.ltb_spec 40 (i_distance st)) as [Hgt|Hle].
  - left. destruct (Z.ltb_spec (i_distance st) 40); [lia|]. auto.
  - right. destruct (Z.ltb_spec (i_distance st) 40); [|lia]. auto.
Qed.

(** * The claims on the renderer *)

(** C5.  For every sample that converts to floats, [draw_object] draws
    the detection marker, a red line from the scaled point to the edge of
    the range and a red filled circle at the scaled point, exactly when the
    distance is below 40.  From 40 on it draws nothing, whatever the sample;
    at 40 it draws nothing, at 39 it draws the marker. *)
Theorem C5_marker_exactly_below_the_threshold :
  THRESHOLD = 40%Z /\
  (forall st : State,
      FloatProjector.drawable st ->
      ((i_distance st < 40)%Z /\ draw_object st = detection_marker st) \/
      ((40 <= i_distance st)%Z /\ draw_object st = [])) /\
  (forall st : State, (40 <= i_distance st)%Z -> draw_object st = []) /\
  (forall (b a d : str) (angle : Z),
      FloatProjector.fits_float angle ->
      draw_object (mkState b a d angle 40) = [] /\
      draw_object (mkState b a d angle 39)
      = [Line RED (polar_to_screen (IZR angle) 195)
              (polar_to_screen (IZR angle) 200) 3;
         Circle RED (polar_to_screen (IZR angle) 195) 3]).
Proof.
  split; [reflexivity|]. split; [|split].
  - intros st _. destruct (Z.lt_ge_cases (i_distance st) 40) as [H|H].
    + left. split; [exact H|]. now apply draw_object_below.
    + right. split; [exact H|]. now apply draw_object_from.
  - intros st H. now apply draw_object_from.
  - intros b a d angle _. split.
    + apply draw_object_from. simpl. unfold THRESHOLD. lia.
    + rewrite draw_object_below by (simpl; unfold THRESHOLD; lia).
      reflexivity.
Qed.

(** The hypotheses of C5 hold for the sample (90, 39). *)
Lemma C5_witness :
  FloatProjector.drawable (mkState [] [] [] 90 39) /\
  FloatProjector.fits_float 90 /\
  (((i_distance (mkState [] [] [] 90 39) < 40)%Z /\
    draw_object (mkState [] [] [] 90 39)
    = detection_marker (mkState [] [] [] 90 39)) \/
   ((40 <= i_distance (mkState [] [] [] 90 39))%Z /\
    draw_object (mkState [] [] [] 90 39) = [])) /\
  draw_object (mkState [] [] [] 90 40) = [] /\
  draw_object (mkState [] [] [] 90 39)
  = [Line RED (polar_to_screen (IZR 90) 195)
          (polar_to_screen (IZR 90) 200) 3;
     Circle RED (polar_to_screen (IZR 90) 195) 3].
Proof.
  assert (H1 : FloatProjector.drawable (mkState [] [] [] 90 39))
    by (split; reflexivity).
  assert (H2 : FloatProjector.fits_float 90) by reflexivity.
  exact (conj H1 (conj H2
           (conj (proj1 (proj2 C5_marker_exactly_below_the_threshold) _ H1)
                 (proj2 (proj2 (proj2 C5_marker_exactly_below_the_threshold))
                        [] [] [] 90%Z H2)))).
Defined.

(** C2 (amended).  The sample at the start is (0, 0), and the distance
    stays 0 as long as no sample has been decoded.  As 0 is below the
    threshold 40, [draw_object] draws the marker on every frame before the
    first decoded sample, its point being the centre of the radar, as long
    as the angle, which a message that yields no sample may have set,
    converts to a float. *)
Theorem C2_marker_drawn_before_the_first_sample :
  sample initial = (0, 0)%Z /\
  (forall chunks : list (list byte),
      snd (feed_all chunks initial) = [] ->
      FloatProjector.fits_float (i_angle (fst (feed_all chunks initial))) ->
      i_distance (fst (feed_all chunks initial)) = 0%Z /\
      FloatProjector.drawable (fst (feed_all chunks initial)) /\
      draw_object (fst (feed_all chunks initial))
      = [Line RED (RADAR_CX, RADAR_CY)
              (polar_to_screen
                 (IZR (i_angle (fst (feed_all chunks initial)))) 200) 3;
         Circle RED (RADAR_CX, RADAR_CY) 3]).
Proof.
  split; [reflexivity|]. intros chunks H Ha.
  pose proof (feed_all_silent_distance chunks initial H) as D.
  simpl in D. split; [exact D|]. split.
  - split; [exact Ha|]. rewrite D. reflexivity.
  - rewrite draw_object_below by (rewrite D; unfold THRESHOLD; lia).
    unfold detection_marker. rewrite D. simpl Z.mul.
    rewrite polar_to_screen_centre. reflexivity.
Qed.

(** The hypotheses of C2 hold after a message that sets the angle alone
    and an unterminated tail. *)
Lemma C2_witness :
  snd (feed_all [bytes "30,x."; bytes "45"] initial) = [] /\
  FloatProjector.fits_float
    (i_angle (fst (feed_all [bytes "30,x."; bytes "45"] initial))) /\
  i_distance (fst (feed_all [bytes "30,x."; bytes "45"] initial)) = 0%Z /\
  FloatProjector.drawable
    (fst (feed_all [bytes "30,x."; bytes "45"] initial)) /\
  draw_object (fst (feed_all [bytes "30,x."; bytes "45"] initial))
  = [Line RED (RADAR_CX, RADAR_CY)
          (polar_to_screen
             (IZR (i_angle
                     (fst (feed_all [bytes "30,x."; bytes "45"] initial))))
             200) 3;
     Circle RED (RADAR_CX, RADAR_CY) 3].
Proof.
  assert (H : snd (feed_all [bytes "30,x."; bytes "45"] initial) = [])
    by reflexivity.
  assert (Ha : FloatProjector.fits_float
                 (i_angle
                    (fst (feed_all [bytes "30,x."; bytes "45"] initial))))
    by reflexivity.
  exact (conj H (conj Ha
           (proj2 C2_marker_drawn_before_the_first_sample _ H Ha))).
Defined.

(** C2 as stated fails: the distance at the start is 0, not a value of 40
    or more, and [draw_object] draws a marker for it. *)
Lemma C2_counterexample :
  i_distance initial = 0%Z /\
  ~ (40 <= i_distance initial)%Z /\
  FloatProjector.drawable initial /\
  draw_object initial <> [].
Proof.
  split; [reflexivity|]. split; [simpl; lia|]. split; [split; reflexivity|].
  rewrite draw_object_below by (simpl; unfold THRESHOLD; lia).
  discriminate.
Qed.

(** C8 (defect of the code).  The claim: the placeholder is shown exactly
    when the status reads out of range.  The status tests [> 40] and the
    distance text [< 40]: for the sample of ["90,40."] the status reads
    ["In"], in red, while the distance text is the placeholder. *)
Theorem C8_status_in_with_placeholder_at_40 :
  sample (fst (read_serial (bytes "90,40.") initial)) = (90, 40)%Z /\
  fst (draw_text (fst (read_serial (bytes "90,40.") initial))) = lit "In" /\
  In (Text font_small (lit "In") RED (TopLeft (5, 240)%Z))
     (snd (draw_text (fst (read_serial (bytes "90,40.") initial)))) /\
  In (Text font_small (lit "A:090" ++ [DEGREE_SIGN]) GREEN_TEXT
           (TopLeft (5, 255)%Z))
     (snd (draw_text (fst (read_serial (bytes "90,40.") initial)))) /\
  In (Text font_small (lit "D:---") GREEN_TEXT (TopLeft (5, 270)%Z))
     (snd (draw_text (fst (read_serial (bytes "90,40.") initial)))).
Proof.
  assert (E : fst (read_serial (bytes "90,40.") initial)
              = mkState [] (lit "90") (lit "40") 90 40)
    by (vm_compute; reflexivity).
  rewrite E. split; [reflexivity|]. split; [reflexivity|].
  unfold draw_text. cbn [snd].
  repeat split; apply in_or_app; right; apply in_or_app; right;
    apply in_or_app; left.
  - right. left. reflexivity.
  - right. right. left. reflexivity.
  - right. right. right. left. reflexivity.
Qed.

(** * Further properties of the decoder *)

Import Wire.

(** ** What the loop takes off the buffer *)

Lemma while_loop_consumes (st : State) :
  exists consumed,
    serial_buffer st = consumed ++ serial_buffer (fst (while_loop st)) /\
    (consumed = [] \/ exists c, consumed = c ++ [DOT]).
Proof.
  apply (while_loop_ind
           (fun s r => exists consumed,
                serial_buffer s = consumed ++ serial_buffer (fst r) /\
                (consumed = [] \/ exists c, consumed = c ++ [DOT]))).
  - intros s _. exists []. auto.
  - intros s msg rest E st1 (consumed & Hc & Hend). simpl in *.
    apply split1_Some in E. destruct E as [-> _].
    exists (msg ++ DOT :: consumed). split.
    + rewrite Hc, <- app_assoc. reflexivity.
    + right. destruct Hend as [->|(c & ->)].
      * now exists msg.
      * exists (msg ++ DOT :: c). now rewrite <- app_assoc.
Qed.

Lemma while_loop_idle (st : State) :
  contains DOT (serial_buffer st) = false -> while_loop st = (st, []).
Proof. intros H. rewrite while_loop_unfold. now rewrite H. Qed.

(** At most one sample for each terminator. *)
Lemma parse_message_at_most_one (msg : str) (st : State) :
  (List.length (snd (parse_message msg st)) <= 1)%nat.
Proof.
  unfold parse_message.
  destruct (contains COMMA msg); [|simpl; lia].
  destruct (split1 COMMA msg) as [[a d]|]; [|simpl; lia].
  destruct (py_int (strip a)); [|simpl; lia].
  destruct (py_int (strip d)); simpl; lia.
Qed.

Lemma dots_app (s t : str) : dots (s ++ t) = (dots s + dots t)%nat.
Proof. unfold dots. now rewrite filter_app, length_app. Qed.

Lemma dots_none (s : str) : contains DOT s = false -> dots s = 0%nat.
Proof.
  unfold dots, contains. induction s as [|x r IH]; [reflexivity|].
  cbn [existsb filter].
  destruct (N.eqb DOT x); cbn [orb]; [discriminate|exact IH].
Qed.

Lemma while_loop_count (st : State) :
  (List.length (snd (while_loop st)) <= dots (serial_buffer st))%nat.
Proof.
  apply (while_loop_ind
           (fun s r => (List.length (snd r) <= dots (serial_buffer s))%nat)).
  - intros s _. simpl. lia.
  - intros s msg rest E st1 IH. simpl in *.
    apply split1_Some in E. destruct E as [-> Hm].
    rewrite length_app, dots_app, (dots_none _ Hm).
    pose proof (parse_message_at_most_one msg s).
    change (dots (DOT :: rest)) with (S (dots rest)). lia.
Qed.

(** ** The distance and the samples decoded *)

Lemma last_default (A : Type) (l : list A) (x y : A) :
  l <> [] -> last l x = last l y.
Proof.
  induction l as [|z l IH]; [congruence|]. intros _.
  destruct l; [reflexivity|]. simpl in *. apply IH. discriminate.
Qed.

Lemma last_app_right (A : Type) (l1 l2 : list A) (x : A) :
  l2 <> [] -> last (l1 ++ l2) x = last l2 x.
Proof.
  intros H. induction l1 as [|z l1 IH]; [reflexivity|].
  simpl. destruct (l1 ++ l2) eqn:E; [|exact IH].
  apply app_eq_nil in E. destruct E. congruence.
Qed.

Lemma last_snd_app (o1 o2 : list Sample) (a a' : Z) (d : Z) :
  snd (last (o1 ++ o2) (a, d)) = snd (last o2 (a', snd (last o1 (a, d)))).
Proof.
  destruct o2 as [|x o2].
  - now rewrite app_nil_r.
  - rewrite last_app_right by discriminate.
    f_equal. apply last_default. discriminate.
Qed.

Lemma parse_message_distance (msg : str) (st : State) (a : Z) :
  i_distance (fst (parse_message msg st))
  = snd (last (snd (parse_message msg st)) (a, i_distance st)).
Proof.
  unfold parse_message.
  destruct (contains COMMA msg); [|reflexivity].
  destruct (split1 COMMA msg) as [[x y]|]; [|reflexivity].
  destruct (py_int (strip x)); [|reflexivity].
  destruct (py_int (strip y)); reflexivity.
Qed.

Lemma while_loop_distance (st : State) (a : Z) :
  i_distance (fst (while_loop st))
  = snd (last (snd (while_loop st)) (a, i_distance st)).
Proof.
  apply (while_loop_ind
           (fun s r => i_distance (fst r)
                       = snd (last (snd r) (a, i_distance s)))).
  - reflexivity.
  - intros s msg rest _ st1 IH. simpl in *.
    rewrite IH, (last_snd_app _ _ a a). f_equal. f_equal. f_equal.
    unfold st1. simpl. apply parse_message_distance.
Qed.

(** ** ASCII bytes always get through the codec *)

Lemma shiftl_6 (x : N) : N.shiftl x 6 = (x * 64)%N.
Proof. now rewrite N.shiftl_mul_pow2. Qed.

Lemma shiftl_12 (x : N) : N.shiftl x 12 = (x * 4096)%N.
Proof. now rewrite N.shiftl_mul_pow2. Qed.

Lemma shiftl_18 (x : N) : N.shiftl x 18 = (x * 262144)%N.
Proof. now rewrite N.shiftl_mul_pow2. Qed.

Ltac bool_facts :=
  repeat
    match goal with
    | H : negb _ = false |- _ => apply negb_false_iff in H
    | H : negb _ = true |- _ => apply negb_true_iff in H
    | H : (_ || _)%bool = false |- _ =>
        apply orb_false_iff in H; destruct H
    | H : (_ && _)%bool = true |- _ =>
        apply andb_true_iff in H; destruct H
    | H : is_continuation _ = true |- _ => unfold is_continuation in H
    | H : context [if ?c then _ else _] |- _ => destruct c eqn:?
    | H : (_ <? _)%N = true |- _ => apply N.ltb_lt in H
    | H : (_ <? _)%N = false |- _ => apply N.ltb_ge in H
    | H : (_ <=? _)%N = true |- _ => apply N.leb_le in H
    | H : (_ <=? _)%N = false |- _ => apply N.leb_gt in H
    | H : (_ =? _)%N = true |- _ => apply N.eqb_eq in H
    | H : (_ =? _)%N = false |- _ => apply N.eqb_neq in H
    end.

Lemma ascii_part_cons_low (c : N) (s : str) :
  (c < 128)%N -> ascii_part (c :: s) = c :: ascii_part s.
Proof.
  intros H. unfold ascii_part. cbn [filter].
  destruct (N.ltb_spec c 128); [reflexivity|lia].
Qed.

Lemma ascii_part_cons_high (c : N) (s : str) :
  (128 <= c)%N -> ascii_part (c :: s) = ascii_part s.
Proof.
  intros H. unfold ascii_part. cbn [filter].
  destruct (N.ltb_spec c 128); [lia|reflexivity].
Qed.

Lemma ascii_bytes_cons_low (b : byte) (bs : list byte) :
  (Byte.to_N b < 128)%N -> ascii_bytes (b :: bs) = b :: ascii_bytes bs.
Proof.
  intros H. unfold ascii_bytes, is_ascii. cbn [filter].
  destruct (N.ltb_spec (Byte.to_N b) 128); [reflexivity|lia].
Qed.

Lemma ascii_bytes_cons_high (b : byte) (bs : list byte) :
  (128 <= Byte.to_N b)%N -> ascii_bytes (b :: bs) = ascii_bytes bs.
Proof.
  intros H. unfold ascii_bytes, is_ascii. cbn [filter].
  destruct (N.ltb_spec (Byte.to_N b) 128); [lia|reflexivity].
Qed.

(** The ASCII characters of the decoded text are the ASCII bytes of the
    chunk, in order. *)
Lemma decode_ascii_part (bs : list byte) (text : str) :
  decode Ignore bs = Some text ->
  ascii_part text = text_of (ascii_bytes bs).
Proof.
  remember (List.length bs) as n eqn:En.
  assert (Hn : (List.length bs <= n)%nat) by lia. clear En.
  revert bs text Hn. induction n as [|n IH]; intros bs text Hn H.
  - destruct bs; [|simpl in Hn; lia]. inversion H. reflexivity.
  - destruct bs as [|b0 r]; [inversion H; reflexivity|].
    simpl in Hn.
    assert (Hemit : forall c rest t,
               (List.length rest <= n)%nat ->
               emit c (decode Ignore rest) = Some t ->
               exists t', t = c :: t' /\
                          ascii_part t' = text_of (ascii_bytes rest)).
    { intros c rest t Hr Ht.
      destruct (decode Ignore rest) as [t'|] eqn:Et; [|discriminate].
      inversion Ht; subst. exists t'. split; [reflexivity|].
      now apply IH. }
    cbn [decode on_error] in H.
    repeat
      match type of H with
      | context [if ?c then _ else _] => destruct c eqn:?
      | context [match ?l with [] => _ | _ :: _ => _ end] => destruct l
      end;
      bool_facts;
      try (apply Hemit in H; [destruct H as (t' & -> & H)|simpl in *; lia]);
      try (apply IH in H; [|simpl in *; lia]);
      try (match type of H with Some _ = Some _ => inversion H; subst end);
      rewrite ?shiftl_6, ?shiftl_12, ?shiftl_18 in *;
      repeat first
        [ rewrite ascii_part_cons_low by lia
        | rewrite ascii_part_cons_high by lia
        | rewrite ascii_bytes_cons_low by lia
        | rewrite ascii_bytes_cons_high by lia ];
      repeat
        match goal with
        | Hx : context [ascii_bytes (_ :: _)] |- _ =>
            first [ rewrite ascii_bytes_cons_high in Hx by lia
                  | rewrite ascii_bytes_cons_low in Hx by lia ]
        end;
      unfold text_of in *; cbn [map];
      solve [assumption | f_equal; assumption | reflexivity].
Qed.

(** C6 (amended).  A chunk that is not valid text is not dropped, and the
    call does not fail: decoding yields a text, in which every ASCII byte of
    the chunk is kept, in order; this text is appended to the buffer, after
    its previous content, and the loop is run.  In particular, for a chunk
    made of valid text [c1], a byte [x] that starts no character, and any
    bytes [c2], the text appended is the text of [c1] followed by what [c2]
    decodes to. *)
Theorem C6_undecodable_bytes_are_skipped :
  (forall (b : byte) (bs : list byte) (st : State),
      decode Strict (b :: bs) = None ->
      exists text,
        decode Ignore (b :: bs) = Some text /\
        ascii_part text = text_of (ascii_bytes (b :: bs)) /\
        read_serial (b :: bs) st
        = while_loop (set_buffer (serial_buffer st ++ text) st))
  /\
  (forall (c1 c2 : list byte) (x : byte) (t1 : str) (st : State),
      decode Strict c1 = Some t1 ->
      invalid_start x = true ->
      decode Strict (c1 ++ x :: c2) = None /\
      exists t2,
        decode Ignore c2 = Some t2 /\
        read_serial (c1 ++ x :: c2) st
        = while_loop (set_buffer (serial_buffer st ++ t1 ++ t2) st)).
Proof.
  split.
  { intros b bs st _.
    destruct (read_serial_cons b bs st) as (text & Hd & E).
    exists text. split; [exact Hd|]. split; [|exact E].
    now apply decode_ascii_part. }
  intros c1 c2 x t1 st H1 Hx.
  assert (Hs : decode Strict (x :: c2) = None /\
               decode Ignore (x :: c2) = decode Ignore c2).
  { assert (Hr : (128 <= to_N x < 194 \/ 245 <= to_N x)%N).
    { unfold invalid_start in Hx. apply orb_prop in Hx.
      destruct Hx as [Hx|Hx].
      - apply andb_prop in Hx. destruct Hx as [Ha Hb].
        apply N.leb_le in Ha. apply N.ltb_lt in Hb. left. lia.
      - apply N.leb_le in Hx. now right. }
    clear Hx. cbn [decode on_error].
    destruct (N.ltb_spec (to_N x) 128); [lia|].
    destruct (N.ltb_spec (to_N x) 194); [auto|].
    destruct (N.ltb_spec (to_N x) 224); [lia|].
    destruct (N.ltb_spec (to_N x) 240); [lia|].
    destruct (N.ltb_spec (to_N x) 245); [lia|auto]. }
  destruct Hs as [Hs Hi].
  split.
  - rewrite (@decode_app_valid Strict _ (x :: c2) _ H1). now rewrite Hs.
  - destruct (decode_ignore_total c2) as [t2 H2]. exists t2.
    split; [exact H2|].
    apply read_serial_text; [destruct c1; discriminate|].
    rewrite (@decode_app_valid Ignore _ (x :: c2) _ H1).
    now rewrite Hi, H2.
Qed.

(** The hypotheses of C6 hold for the chunk ["1" 0xC3 ",2."], which a
    character cut short makes undecodable, and for ["07,1"], the byte
    [0xFF] and ["5."]. *)
Lemma C6_witness :
  decode Strict [x31; xc3; x2c; x32; x2e] = None /\
  (exists text,
      decode Ignore [x31; xc3; x2c; x32; x2e] = Some text /\
      ascii_part text
      = text_of (ascii_bytes [x31; xc3; x2c; x32; x2e]) /\
      read_serial [x31; xc3; x2c; x32; x2e] initial
      = while_loop (set_buffer (serial_buffer initial ++ text) initial)) /\
  decode Strict (bytes "07,1") = Some (lit "07,1") /\
  invalid_start xff = true /\
  decode Strict (bytes "07,1" ++ xff :: bytes "5.") = None /\
  exists t2,
    decode Ignore (bytes "5.") = Some t2 /\
    read_serial (bytes "07,1" ++ xff :: bytes "5.") initial
    = while_loop (set_buffer (serial_buffer initial ++ lit "07,1" ++ t2)
                             initial).
Proof.
  assert (H0 : decode Strict [x31; xc3; x2c; x32; x2e] = None)
    by reflexivity.
  assert (H1 : decode Strict (bytes "07,1") = Some (lit "07,1"))
    by reflexivity.
  assert (H2 : invalid_start xff = true) by reflexivity.
  exact (conj H0
           (conj (proj1 C6_undecodable_bytes_are_skipped
                        x31 [xc3; x2c; x32; x2e] initial H0)
              (conj H1 (conj H2
                 (proj2 C6_undecodable_bytes_are_skipped
                    (bytes "07,1") (bytes "5.") xff (lit "07,1") initial
                    H1 H2))))).
Defined.

(** C6 as stated fails: the chunk [0xFF "10,5."] is not valid text, yet it
    is not dropped: the sample (10, 5) is decoded from it. *)
Lemma C6_counterexample :
  decode Strict (xff :: bytes "10,5.") = None /\
  read_serial (xff :: bytes "10,5.") initial
  = (mkState [] (lit "10") (lit "5") 10 5, [(10, 5)%Z]) /\
  fst (read_serial (xff :: bytes "10,5.") initial) <> initial.
Proof.
  repeat split; try (vm_compute; reflexivity).
  vm_compute. discriminate.
Qed.

Lemma dots_ascii_part (s : str) : dots (ascii_part s) = dots s.
Proof.
  unfold dots, ascii_part. induction s as [|c s IH]; [reflexivity|].
  cbn [filter]. destruct (N.ltb_spec c 128) as [Hc|Hc]; cbn [filter].
  - destruct (N.eqb DOT c); cbn [List.length]; now rewrite IH.
  - destruct (N.eqb_spec DOT c) as [E|E]; [|exact IH].
    unfold DOT in E. lia.
Qed.

Lemma dots_text_of (bs : list byte) :
  dots (text_of (ascii_bytes bs)) = dot_bytes bs.
Proof.
  unfold dots, dot_bytes, text_of, ascii_bytes, is_ascii.
  induction bs as [|b bs IH]; [reflexivity|].
  cbn [filter map]. rewrite (N.eqb_sym (Byte.to_N b) DOT).
  destruct (N.ltb_spec (Byte.to_N b) 128) as [Hc|Hc]; cbn [filter map].
  - destruct (N.eqb DOT (Byte.to_N b)); cbn [List.length]; now rewrite IH.
  - destruct (N.eqb_spec DOT (Byte.to_N b)) as [E|E]; [|exact IH].
    unfold DOT in E. lia.
Qed.

Lemma decode_dots (bs : list byte) (text : str) :
  decode Ignore bs = Some text -> dots text = dot_bytes bs.
Proof.
  intros H. rewrite <- dots_ascii_part, (decode_ascii_part _ H).
  apply dots_text_of.
Qed.

Lemma dots_zero (s : str) : dots s = 0%nat -> contains DOT s = false.
Proof.
  unfold dots, contains. induction s as [|x r IH]; [reflexivity|].
  cbn [existsb filter].
  destruct (N.eqb DOT x); cbn [orb List.length]; [discriminate|exact IH].
Qed.

Lemma read_serial_count (chunk : list byte) (st : State) :
  (List.length (snd (read_serial chunk st))
   <= dots (serial_buffer st) + dot_bytes chunk)%nat.
Proof.
  destruct chunk as [|b bs]; [simpl; lia|].
  destruct (read_serial_cons b bs st) as (text & Hd & ->).
  pose proof (while_loop_count
                (set_buffer (serial_buffer st ++ text) st)) as H.
  simpl serial_buffer in H. rewrite dots_app, (decode_dots _ Hd) in H.
  exact H.
Qed.

Lemma read_serial_no_dots (chunk : list byte) (st : State) :
  dots (serial_buffer st) = 0%nat ->
  dots (serial_buffer (fst (read_serial chunk st))) = 0%nat.
Proof.
  destruct chunk as [|b bs]; [trivial|]. intros _.
  apply dots_none, read_serial_exit.
Qed.

Lemma dot_bytes_app (a b : list byte) :
  dot_bytes (a ++ b) = (dot_bytes a + dot_bytes b)%nat.
Proof. unfold dot_bytes. now rewrite filter_app, length_app. Qed.

(** * Further facts on the decoder *)

(** X1.  After a call that received bytes the buffer is the unterminated
    tail of what it held followed by the decoded text: what was taken off
    is empty or ends with a terminator, and what is left has none. *)
Theorem buffer_is_the_unterminated_tail
  (b : byte) (bs : list byte) (st : State) :
  exists text consumed,
    decode Ignore (b :: bs) = Some text /\
    serial_buffer st ++ text
    = consumed ++ serial_buffer (fst (read_serial (b :: bs) st)) /\
    (consumed = [] \/ exists c, consumed = c ++ [DOT]) /\
    contains DOT (serial_buffer (fst (read_serial (b :: bs) st))) = false.
Proof.
  destruct (read_serial_cons b bs st) as (text & Hd & E).
  destruct (while_loop_consumes (set_buffer (serial_buffer st ++ text) st))
    as (consumed & Hc & Hend).
  exists text, consumed. rewrite E. simpl serial_buffer in Hc.
  repeat split; trivial. apply while_loop_exit.
Qed.

(** X2.  A chunk without terminator byte, received on a buffer without
    terminator, is only buffered: its text is appended, the other globals
    are untouched and nothing is decoded. *)
Theorem chunk_without_terminator_is_only_buffered
  (b : byte) (bs : list byte) (st : State) :
  contains DOT (serial_buffer st) = false ->
  dot_bytes (b :: bs) = 0%nat ->
  exists text,
    decode Ignore (b :: bs) = Some text /\
    read_serial (b :: bs) st
    = (set_buffer (serial_buffer st ++ text) st, []).
Proof.
  intros Hb Hc.
  destruct (read_serial_cons b bs st) as (text & Hd & E).
  exists text. split; [exact Hd|]. rewrite E.
  apply while_loop_idle. simpl.
  rewrite contains_app, Hb. simpl. apply dots_zero.
  now rewrite (decode_dots _ Hd).
Qed.

(** The hypotheses of X2 hold for ["07,1"] at the start. *)
Lemma chunk_without_terminator_witness :
  contains DOT (serial_buffer initial) = false /\
  dot_bytes (bytes "07,1") = 0%nat /\
  exists text,
    decode Ignore (bytes "07,1") = Some text /\
    read_serial (bytes "07,1") initial
    = (set_buffer (serial_buffer initial ++ text) initial, []).
Proof.
  assert (H1 : contains DOT (serial_buffer initial) = false) by reflexivity.
  assert (H2 : dot_bytes (x30 :: bytes "7,1") = 0%nat) by reflexivity.
  exact (conj H1 (conj H2
           (@chunk_without_terminator_is_only_buffered
              x30 (bytes "7,1") initial H1 H2))).
Defined.

(** X3.  From the start of the program, the samples decoded are never more
    than the terminator bytes received. *)
Theorem samples_never_exceed_terminators (chunks : list (list byte)) :
  (List.length (snd (feed_all chunks initial))
   <= dot_bytes (List.concat chunks))%nat.
Proof.
  assert (G : forall cs st,
             dots (serial_buffer st) = 0%nat ->
             (List.length (snd (feed_all cs st))
              <= dot_bytes (List.concat cs))%nat).
  { induction cs as [|c cs IH]; intros st Hst; [simpl; lia|].
    simpl. pose proof (read_serial_count c st) as Hc.
    pose proof (read_serial_no_dots c st Hst) as Hn.
    destruct (read_serial c st) as [s1 o1]. simpl in Hc, Hn.
    specialize (IH s1 Hn). destruct (feed_all cs s1) as [s2 o2].
    simpl in *. rewrite length_app, dot_bytes_app. lia. }
  now apply G.
Qed.

(** X4.  The distance is always that of the last sample decoded, or the
    distance held before when none was: only a message whose two fields
    were read changes it. *)
Theorem distance_is_that_of_the_last_sample
  (chunks : list (list byte)) (st : State) (a : Z) :
  i_distance (fst (feed_all chunks st))
  = snd (last (snd (feed_all chunks st)) (a, i_distance st)).
Proof.
  revert st a. induction chunks as [|c cs IH]; intros st a; [reflexivity|].
  simpl.
  assert (Hc : i_distance (fst (read_serial c st))
               = snd (last (snd (read_serial c st)) (a, i_distance st))).
  { destruct c as [|b bs]; [reflexivity|].
    destruct (read_serial_cons b bs st) as (text & _ & ->).
    apply (while_loop_distance
             (set_buffer (serial_buffer st ++ text) st) a). }
  destruct (read_serial c st) as [s1 o1]. simpl in Hc.
  specialize (IH s1 a). destruct (feed_all cs s1) as [s2 o2].
  simpl in *. rewrite IH, (last_snd_app o1 o2 a a). now rewrite Hc.
Qed.

(** X5.  Bytes that are not ASCII never cost an ASCII byte: the ASCII
    characters of the text a call appends to the buffer are the ASCII bytes
    of the chunk, all of them and in order. *)
Theorem ascii_bytes_reach_the_buffer
  (b : byte) (bs : list byte) (st : State) :
  exists text,
    read_serial (b :: bs) st
    = while_loop (set_buffer (serial_buffer st ++ text) st) /\
    ascii_part text = text_of (ascii_bytes (b :: bs)).
Proof.
  destruct (read_serial_cons b bs st) as (text & Hd & E).
  exists text. split; [exact E|]. now apply decode_ascii_part.
Qed.

(** ** Blanks around a field *)

Lemma lstrip_blanks (w t : str) :
  forallb is_space w = true -> lstrip (w ++ t) = lstrip t.
Proof.
  induction w as [|c w IH]; [reflexivity|].
  cbn [forallb]. intros H. apply andb_prop in H. destruct H as [Hc Hw].
  cbn [app lstrip]. rewrite Hc. now apply IH.
Qed.

Lemma lstrip_app (s w : str) :
  lstrip (s ++ w) =
  match lstrip s with [] => lstrip w | _ :: _ => lstrip s ++ w end.
Proof.
  induction s as [|c s IH]; [simpl; now destruct (lstrip w)|].
  cbn [app lstrip]. destruct (is_space c); [exact IH|reflexivity].
Qed.

Lemma lstrip_all_blanks (w : str) : forallb is_space w = true -> lstrip w = [].
Proof.
  intros H. rewrite <- (app_nil_r w), lstrip_blanks by exact H. reflexivity.
Qed.

Lemma forallb_rev (A : Type) (f : A -> bool) (l : list A) :
  forallb f (rev l) = forallb f l.
Proof.
  induction l as [|x l IH]; [reflexivity|].
  simpl. rewrite forallb_app, IH. simpl.
  rewrite andb_true_r. apply andb_comm.
Qed.

Lemma rstrip_blanks (t w : str) :
  forallb is_space w = true -> rstrip (t ++ w) = rstrip t.
Proof.
  intros H. unfold rstrip. rewrite rev_app_distr, lstrip_blanks; [easy|].
  now rewrite forallb_rev.
Qed.

(** Blanks before and after a text do not change what [strip] returns. *)
Lemma strip_blanks (w1 s w2 : str) :
  forallb is_space w1 = true -> forallb is_space w2 = true ->
  strip (w1 ++ s ++ w2) = strip s.
Proof.
  intros H1 H2. unfold strip. rewrite lstrip_blanks by exact H1.
  rewrite lstrip_app.
  destruct (lstrip s) as [|c r].
  - rewrite lstrip_all_blanks by exact H2. reflexivity.
  - now apply rstrip_blanks.
Qed.

(** A text without blanks is its own [strip]. *)
Lemma lstrip_id (s : str) :
  forallb (fun c => negb (is_space c)) s = true -> lstrip s = s.
Proof.
  destruct s as [|c s]; [reflexivity|]. cbn [forallb lstrip].
  intros H. apply andb_prop in H. destruct H as [H _].
  apply negb_true_iff in H. now rewrite H.
Qed.

Lemma strip_id (s : str) :
  forallb (fun c => negb (is_space c)) s = true -> strip s = s.
Proof.
  intros H. unfold strip, rstrip. rewrite (lstrip_id s) by exact H.
  rewrite lstrip_id by now rewrite forallb_rev. apply rev_involutive.
Qed.

Lemma blanks_no_comma (w : str) :
  forallb is_space w = true -> contains COMMA w = false.
Proof.
  unfold contains. induction w as [|c w IH]; [reflexivity|].
  cbn [forallb existsb]. intros H. apply andb_prop in H.
  destruct H as [Hc Hw]. rewrite (IH Hw).
  destruct (N.eqb_spec COMMA c) as [<-|]; [discriminate Hc|reflexivity].
Qed.

(** ** The characters of a number *)

Lemma int_space_is_space (c : N) : int_space c = true -> is_space c = true.
Proof.
  unfold int_space, is_space. destruct (c <? 127)%N; [|trivial].
  intros H. apply orb_prop in H. destruct H as [H|H].
  - rewrite H. reflexivity.
  - apply N.eqb_eq in H. subst. reflexivity.
Qed.

Lemma skip_spaces_split (s : str) :
  exists sp, s = sp ++ skip_spaces s /\ forallb is_space sp = true.
Proof.
  induction s as [|c s (sp & E & Hsp)]; [now exists []|].
  cbn [skip_spaces]. destruct (int_space c) eqn:Hc.
  - exists (c :: sp). cbn [forallb app]. rewrite <- E.
    now rewrite int_space_is_space, Hsp.
  - now exists [].
Qed.

Lemma skip_spaces_nil (s : str) :
  skip_spaces s = [] -> forallb is_space s = true.
Proof.
  intros H. destruct (skip_spaces_split s) as (sp & E & Hsp).
  rewrite H, app_nil_r in E. now subst.
Qed.

Lemma scan_digits_chars (s : str) :
  forall (pu : bool) (acc : Z) (k : nat) (v : Z) (k' : nat) (rest : str),
    scan_digits s pu acc k = Some (v, k', rest) ->
    exists body, s = body ++ rest /\ forallb int_char body = true.
Proof.
  induction s as [|c s IH]; intros pu acc k v k' rest H.
  - simpl in H. destruct pu; [discriminate|]. inversion H. now exists [].
  - cbn [scan_digits] in H. destruct (N.eqb_spec c 95) as [->|Hc].
    + destruct pu; [discriminate|].
      destruct (IH _ _ _ _ _ _ H) as (body & -> & Hb).
      exists (95%N :: body). split; [reflexivity|].
      cbn [forallb]. now rewrite Hb.
    + destruct (to_decimal c) as [d|] eqn:Hd.
      * destruct (IH _ _ _ _ _ _ H) as (body & -> & Hb).
        exists (c :: body). split; [reflexivity|].
        cbn [forallb]. unfold int_char at 1. rewrite Hd, Hb.
        now rewrite !orb_true_r.
      * destruct pu; [discriminate|]. inversion H. now exists [].
Qed.

(** [int] reads numbers from blanks, signs, underscores and decimal digits
    only. *)
Lemma py_int_chars (s : str) (v : Z) :
  py_int s = Some v -> forallb int_char s = true.
Proof.
  unfold py_int. intros H.
  destruct (skip_spaces_split s) as (sp & E & Hsp).
  assert (Hblank : forall w, forallb is_space w = true ->
                             forallb int_char w = true).
  { induction w as [|c w IHw]; [reflexivity|]. cbn [forallb].
    intros Hw. apply andb_prop in Hw. destruct Hw as [Hc Hw].
    unfold int_char at 1. now rewrite Hc, (IHw Hw). }
  assert (Hbody : forall (neg : bool) (s2 : str),
             match s2 with
             | c :: _ =>
                 if (c =? 95)%N then None
                 else
                   match scan_digits s2 false 0%Z 0%nat with
                   | Some (v0, digits, rest) =>
                       match digits, skip_spaces rest with
                       | O, _ => None
                       | _, _ :: _ => None
                       | _, [] =>
                           if (int_max_str_digits <? digits)%nat then None
                           else Some (if neg then (- v0)%Z else v0)
                       end
                   | None => None
                   end
             | [] => None
             end = Some v ->
             forallb int_char s2 = true).
  { intros neg s2 H2. destruct s2 as [|c r]; [discriminate|].
    destruct (c =? 95)%N; [discriminate|].
    destruct (scan_digits (c :: r) false 0%Z 0%nat)
      as [[[v0 digits] rest]|] eqn:Es; [|discriminate].
    destruct digits; [discriminate|].
    destruct (skip_spaces rest) eqn:Er; [|discriminate].
    destruct (scan_digits_chars _ _ _ _ Es) as (body & -> & Hb).
    rewrite forallb_app, Hb. simpl. apply Hblank, skip_spaces_nil, Er. }
  rewrite E, forallb_app, (Hblank _ Hsp). simpl.
  destruct (skip_spaces s) as [|c r]; [discriminate H|].
  destruct (N.eqb_spec c 43) as [->|H43].
  { cbn [forallb]. now rewrite (Hbody false r H). }
  destruct (N.eqb_spec c 45) as [->|H45].
  { cbn [forallb]. now rewrite (Hbody true r H). }
  exact (Hbody false (c :: r) H).
Qed.

Lemma int_chars_no_comma (s : str) :
  forallb int_char s = true -> contains COMMA s = false.
Proof.
  unfold contains. induction s as [|c s IH]; [reflexivity|].
  cbn [forallb existsb]. intros H. apply andb_prop in H.
  destruct H as [Hc Hs]. rewrite (IH Hs).
  destruct (N.eqb_spec COMMA c) as [<-|]; [discriminate Hc|reflexivity].
Qed.

Lemma forallb_lstrip (f : N -> bool) (s : str) :
  (forall c, is_space c = true -> f c = true) ->
  forallb f (lstrip s) = true -> forallb f s = true.
Proof.
  intros Hf. induction s as [|c s IH]; [trivial|].
  cbn [lstrip forallb]. destruct (is_space c) eqn:Hc.
  - intros H. now rewrite (Hf _ Hc), (IH H).
  - trivial.
Qed.

Lemma forallb_strip (f : N -> bool) (s : str) :
  (forall c, is_space c = true -> f c = true) ->
  forallb f (strip s) = true -> forallb f s = true.
Proof.
  intros Hf H. unfold strip, rstrip in H. rewrite forallb_rev in H.
  apply forallb_lstrip in H; [|exact Hf]. rewrite forallb_rev in H.
  apply forallb_lstrip; [exact Hf|exact H].
Qed.

(** ** Decimal text *)

Lemma lit_String (a : ascii) (s : string) :
  lit (String a s) = N_of_ascii a :: lit s.
Proof. reflexivity. Qed.

Lemma ascii_digit_cases (c : N) :
  ascii_digit c = true ->
  c = 48%N \/ c = 49%N \/ c = 50%N \/ c = 51%N \/ c = 52%N \/
  c = 53%N \/ c = 54%N \/ c = 55%N \/ c = 56%N \/ c = 57%N.
Proof.
  unfold ascii_digit. intros H. apply andb_prop in H. destruct H as [H1 H2].
  apply N.leb_le in H1. apply N.leb_le in H2. lia.
Qed.

Lemma ascii_digit_value (c : N) :
  ascii_digit c = true -> to_decimal c = Some (Z.of_N c - 48)%Z.
Proof.
  intros H. apply ascii_digit_cases in H.
  repeat (destruct H as [->|H]; [reflexivity|]). now subst.
Qed.

Lemma ascii_digit_plain (c : N) :
  ascii_digit c = true ->
  is_space c = false /\ int_space c = false /\ (c =? 43)%N = false /\
  (c =? 45)%N = false /\ (c =? 95)%N = false /\ (c =? COMMA)%N = false /\
  (c =? DOT)%N = false /\ (c <? 128)%N = true.
Proof.
  intros H. apply ascii_digit_cases in H.
  repeat (destruct H as [->|H]; [repeat split|]). subst. repeat split.
Qed.

Lemma scan_digits_digit (c : N) (s : str) (pu : bool) (acc : Z) (k : nat) :
  ascii_digit c = true ->
  scan_digits (c :: s) pu acc k
  = scan_digits s false (10 * acc + (Z.of_N c - 48))%Z (S k).
Proof.
  intros H. cbn [scan_digits]. rewrite (ascii_digit_value _ H).
  destruct (ascii_digit_plain _ H) as (_ & _ & _ & _ & -> & _).
  reflexivity.
Qed.

Lemma uint_digits (d : Decimal.uint) :
  forallb ascii_digit (lit (NilEmpty.string_of_uint d)) = true.
Proof.
  induction d; [reflexivity|..];
    cbn [NilEmpty.string_of_uint]; rewrite lit_String; cbn [forallb];
    rewrite IHd; reflexivity.
Qed.

Lemma uint_nonempty (d : Decimal.uint) :
  d <> Decimal.Nil -> lit (NilEmpty.string_of_uint d) <> [].
Proof. destruct d; [congruence|..]; discriminate. Qed.

(** The scan reads a row of digits as the number it denotes. *)
Lemma scan_digits_uint (d : Decimal.uint) (acc : Z) (k : nat) :
  scan_digits (lit (NilEmpty.string_of_uint d)) false acc k
  = Some (uint_value acc d,
          (k + List.length (lit (NilEmpty.string_of_uint d)))%nat, []).
Proof.
  revert acc k.
  induction d; intros acc k;
    [simpl; now rewrite Nat.add_0_r|..];
    cbn [NilEmpty.string_of_uint]; rewrite lit_String;
    match goal with
    | |- context [N_of_ascii ?a] =>
        let v := eval vm_compute in (N_of_ascii a) in
        change (N_of_ascii a) with v
    end;
    rewrite scan_digits_digit by reflexivity;
    rewrite IHd; cbn [uint_value List.length];
    match goal with
    | |- Some (uint_value ?a _, ?n, _) = Some (uint_value ?b _, ?m, _) =>
        replace a with b by lia; replace n with m by lia; reflexivity
    end.
Qed.

Lemma scan_digits_zeros (pad : nat) (s : str) (k : nat) :
  scan_digits (repeat 48%N pad ++ s) false 0 k
  = scan_digits s false 0 (k + pad).
Proof.
  revert k. induction pad as [|pad IH]; intros k.
  - simpl. now rewrite Nat.add_0_r.
  - cbn [repeat app]. rewrite scan_digits_digit by reflexivity.
    cbn. rewrite IH. f_equal. lia.
Qed.

Lemma uint_value_pos (d : Decimal.uint) (p : positive) :
  uint_value (Z.pos p) d = Z.pos (Pos.of_uint_acc d p).
Proof.
  revert p. induction d; intros p; [reflexivity|..];
    cbn [uint_value Pos.of_uint_acc];
    rewrite <- IHd; f_equal; lia.
Qed.

Lemma uint_value_of_uint (d : Decimal.uint) :
  uint_value 0 d = Z.of_N (Pos.of_uint d).
Proof.
  induction d; [reflexivity|exact IHd|..];
    cbn [uint_value Pos.of_uint]; cbn [Z.mul Z.add];
    apply uint_value_pos.
Qed.

(** The decimal text of a number that is not negative: a row of digits,
    not empty, that denotes it. *)
Lemma str_of_int_nonneg (n : Z) :
  (0 <= n)%Z ->
  exists d, str_of_int n = lit (NilEmpty.string_of_uint d) /\
            d <> Decimal.Nil /\ uint_value 0 d = n.
Proof.
  intros H. destruct n as [|p|p]; [| |lia].
  - exists (Decimal.D0 Decimal.Nil). repeat split. discriminate.
  - exists (Pos.to_uint p). unfold str_of_int. cbn [Z.to_int].
    pose proof (DecimalPos.Unsigned.to_uint_nonnil p) as Hn.
    repeat split; trivial.
    + cbn [NilZero.string_of_int]. unfold NilZero.string_of_uint.
      destruct (Pos.to_uint p); [congruence|..]; reflexivity.
    + rewrite uint_value_of_uint, DecimalPos.Unsigned.of_to. reflexivity.
Qed.

Lemma str_of_int_neg (n : Z) :
  (n < 0)%Z -> str_of_int n = 45%N :: str_of_int (- n).
Proof.
  intros H. destruct n as [|p|p]; [lia|lia|].
  unfold str_of_int. cbn [Z.to_int Z.opp NilZero.string_of_int].
  rewrite lit_String. reflexivity.
Qed.

(** [int] on a row of ASCII digits, alone or after a minus sign. *)
Lemma py_int_of_digits (s : str) (v : Z) (k : nat) :
  s <> [] -> forallb ascii_digit s = true ->
  scan_digits s false 0 0 = Some (v, k, []) ->
  (0 < k <= int_max_str_digits)%nat ->
  py_int s = Some v /\ py_int (45%N :: s) = Some (- v)%Z.
Proof.
  intros Hne Hd Hs [Hk0 Hk].
  destruct s as [|c r]; [congruence|].
  cbn [forallb] in Hd. apply andb_prop in Hd. destruct Hd as [Hc _].
  destruct (ascii_digit_plain _ Hc) as (_ & Hsp & H43 & H45 & H95 & _).
  assert (Hlim : (int_max_str_digits <? k)%nat = false)
    by (apply Nat.ltb_ge; lia).
  split.
  - unfold py_int. cbn [skip_spaces]. rewrite Hsp, H43, H45, H95, Hs.
    destruct k; [lia|]. cbn [skip_spaces]. now rewrite Hlim.
  - unfold py_int. cbn [skip_spaces].
    change (int_space 45) with false. cbv iota.
    change (45 =? 43)%N with false. change (45 =? 45)%N with true.
    cbv iota. rewrite H95, Hs.
    destruct k; [lia|]. cbn [skip_spaces]. now rewrite Hlim.
Qed.

Lemma py_int_padded (pad : nat) (d : Decimal.uint) :
  d <> Decimal.Nil ->
  (pad + List.length (lit (NilEmpty.string_of_uint d))
   <= int_max_str_digits)%nat ->
  py_int (repeat 48%N pad ++ lit (NilEmpty.string_of_uint d))
  = Some (uint_value 0 d) /\
  py_int (45%N :: repeat 48%N pad ++ lit (NilEmpty.string_of_uint d))
  = Some (- uint_value 0 d)%Z.
Proof.
  intros Hd Hlen.
  pose proof (uint_nonempty Hd) as Hne.
  apply py_int_of_digits
    with (k := (pad + List.length (lit (NilEmpty.string_of_uint d)))%nat).
  - destruct pad; [exact Hne|discriminate].
  - rewrite forallb_app, uint_digits, andb_true_r.
    clear. induction pad; [reflexivity|exact IHpad].
  - rewrite scan_digits_zeros, scan_digits_uint. reflexivity.
  - split; [|exact Hlen].
    destruct (lit (NilEmpty.string_of_uint d)); [congruence|simpl; lia].
Qed.

(** The characters of the decimal text of a number: ASCII digits and the
    minus sign. *)
Lemma str_of_int_chars (n : Z) :
  forallb (fun c => ascii_digit c || (c =? 45)%N) (str_of_int n) = true.
Proof.
  assert (P : forall m, (0 <= m)%Z ->
              forallb (fun c => ascii_digit c || (c =? 45)%N) (str_of_int m)
              = true).
  { intros m Hm. destruct (str_of_int_nonneg Hm) as (d & -> & _ & _).
    pose proof (uint_digits d) as H.
    induction (lit (NilEmpty.string_of_uint d)) as [|c l IH];
      [reflexivity|].
    cbn [forallb] in *. apply andb_prop in H. destruct H as [-> H].
    now rewrite IH. }
  destruct (Z.lt_ge_cases n 0) as [Hn|Hn].
  - rewrite (str_of_int_neg Hn). cbn [forallb]. rewrite P by lia.
    reflexivity.
  - now apply P.
Qed.

Lemma plain_chars (s : str) :
  forallb (fun c => ascii_digit c || (c =? 45)%N) s = true ->
  forallb (fun c => negb (is_space c)) s = true /\
  contains COMMA s = false /\ contains DOT s = false /\
  forallb (fun c => (c <? 128)%N) s = true.
Proof.
  unfold contains. induction s as [|c s IH]; [repeat split|].
  cbn [forallb existsb]. intros H. apply andb_prop in H.
  destruct H as [Hc Hs]. destruct (IH Hs) as (-> & -> & -> & ->).
  apply orb_prop in Hc. destruct Hc as [Hc|Hc].
  - destruct (ascii_digit_plain _ Hc)
      as (-> & _ & _ & _ & _ & Hcomma & Hdot & ->).
    rewrite N.eqb_sym in Hcomma. rewrite N.eqb_sym in Hdot.
    rewrite Hcomma, Hdot. repeat split.
  - apply N.eqb_eq in Hc. subst. repeat split.
Qed.

(** * Further facts on the fields of a message *)

(** [int] undoes [str] and [format(., "03d")] on a number of at most 4300
    digits. *)
Lemma py_int_of_decimal_text (n : Z) :
  (List.length (str_of_int (Z.abs n)) <= int_max_str_digits)%nat ->
  py_int (str_of_int n) = Some n /\
  py_int (Renderer.format_03d n) = Some n.
Proof.
  intros Hlen.
  destruct (str_of_int_nonneg (Z.abs_nonneg n)) as (d & E & Hd & Hv).
  rewrite E in Hlen.
  assert (Hpad : forall pad, (pad <= 3)%nat ->
            (pad - List.length (lit (NilEmpty.string_of_uint d))
             + List.length (lit (NilEmpty.string_of_uint d))
             <= int_max_str_digits)%nat).
  { intros pad Hp. unfold int_max_str_digits in *. lia. }
  assert (H0 : (0 + List.length (lit (NilEmpty.string_of_uint d))
                <= int_max_str_digits)%nat) by exact Hlen.
  destruct (py_int_padded 0 Hd H0) as [P0 N0]. cbn [repeat app] in P0, N0.
  rewrite Hv in P0, N0.
  unfold Renderer.format_03d.
  destruct (Z.ltb_spec n 0) as [Hn|Hn].
  - rewrite (str_of_int_neg Hn).
    replace (- n)%Z with (Z.abs n) by lia. rewrite E.
    replace (- Z.abs n)%Z with n in N0 by lia.
    split; [exact N0|].
    destruct (py_int_padded _ Hd
                (Hpad (3 - List.length (lit "-"))%nat ltac:(simpl; lia)))
      as [_ Nk].
    rewrite Hv in Nk. replace (- Z.abs n)%Z with n in Nk by lia.
    exact Nk.
  - replace (Z.abs n) with n in * by lia. rewrite E.
    split; [exact P0|].
    destruct (py_int_padded _ Hd
                (Hpad (3 - @List.length N [])%nat ltac:(simpl; lia)))
      as [Pk _].
    rewrite Hv in Pk. exact Pk.
Qed.

(** X6.  Decimal text reads back: for a number of at most 4300 digits,
    [int] of [str(n)] and of [format(n, "03d")] is [n]. *)
Theorem decimal_text_reads_back (n : Z) :
  (List.length (str_of_int (Z.abs n)) <= int_max_str_digits)%nat ->
  py_int (str_of_int n) = Some n /\
  py_int (Renderer.format_03d n) = Some n.
Proof. exact (py_int_of_decimal_text n). Qed.

(** The hypothesis of X6 holds for the angle 45. *)
Lemma decimal_text_reads_back_witness :
  (List.length (str_of_int (Z.abs 45)) <= int_max_str_digits)%nat /\
  py_int (str_of_int 45) = Some 45%Z /\
  py_int (Renderer.format_03d 45) = Some 45%Z.
Proof.
  assert (H : (List.length (str_of_int (Z.abs 45))
               <= int_max_str_digits)%nat)
    by (apply Nat.leb_le; reflexivity).
  exact (conj H (@decimal_text_reads_back 45 H)).
Defined.

Lemma parse_message_fields (a d : str) (st : State) :
  contains COMMA a = false ->
  parse_message (a ++ COMMA :: d) st =
  match py_int (strip a) with
  | Some angle =>
      match py_int (strip d) with
      | Some distance =>
          (mkState (serial_buffer st) a d angle distance,
           [(angle, distance)])
      | None => (mkState (serial_buffer st) a d angle (i_distance st), [])
      end
  | None => (mkState (serial_buffer st) a d (i_angle st) (i_distance st), [])
  end.
Proof.
  intros Ha. unfold parse_message.
  rewrite contains_mid, (@split1_first COMMA a d Ha).
  destruct (py_int (strip a)); [|reflexivity].
  destruct (py_int (strip d)); reflexivity.
Qed.

Lemma text_ascii (bs : list byte) :
  forallb (fun c => (c <? 128)%N) (text_of bs) = true ->
  forallb is_ascii bs = true.
Proof.
  unfold text_of, is_ascii. induction bs as [|b bs IH]; [reflexivity|].
  cbn [map forallb]. intros H. apply andb_prop in H.
  destruct H as [-> H]. now apply IH.
Qed.

(** A whole message received on an empty buffer is parsed by the call. *)
Lemma read_serial_one_message (payload : list byte) (st : State) :
  forallb is_ascii payload = true ->
  contains DOT (text_of payload) = false ->
  serial_buffer st = [] ->
  read_serial (frame payload) st = parse_message (text_of payload) st.
Proof.
  intros Ha Hd Hb.
  assert (Hf : forallb is_ascii (frame payload) = true).
  { unfold frame. now rewrite forallb_app, Ha. }
  assert (Hne : frame payload <> []).
  { unfold frame. destruct payload; discriminate. }
  rewrite (read_serial_text st Hne (decode_ascii Ignore _ Hf)).
  rewrite Hb. cbn [app].
  pose proof (@while_loop_frames [text_of payload] st) as W.
  cbn [map List.concat parse_all] in W. rewrite app_nil_r in W.
  unfold frame, text_of. rewrite map_app.
  change (map to_N (bytes ".")) with [DOT].
  fold (text_of payload). rewrite W by (repeat constructor; exact Hd).
  pose proof (parse_message_buffer (text_of payload) st) as Hp.
  destruct (parse_message (text_of payload) st) as [s o].
  simpl in *. rewrite app_nil_r, <- Hb, <- Hp. now rewrite set_buffer_same.
Qed.

(** X7.  A message made of the decimal text of an angle, a comma, the
    decimal text of a distance and the terminator, received on an empty
    buffer, sets the sample to that angle and distance and is recorded as
    one sample. *)
Theorem decimal_message_is_decoded
  (angle distance : Z) (payload : list byte) (st : State) :
  (List.length (str_of_int (Z.abs angle)) <= int_max_str_digits)%nat ->
  (List.length (str_of_int (Z.abs distance)) <= int_max_str_digits)%nat ->
  serial_buffer st = [] ->
  text_of payload = str_of_int angle ++ COMMA :: str_of_int distance ->
  read_serial (frame payload) st
  = (mkState [] (str_of_int angle) (str_of_int distance) angle distance,
     [(angle, distance)]).
Proof.
  intros La Ld Hb Ht.
  destruct (@plain_chars _ (str_of_int_chars angle)) as (Sa & Ca & Da & Aa).
  destruct (@plain_chars _ (str_of_int_chars distance))
    as (Sd & Cd & Dd & Ad).
  rewrite read_serial_one_message; trivial.
  - rewrite Ht, (@parse_message_fields _ _ _ Ca).
    rewrite (@strip_id _ Sa), (@strip_id _ Sd).
    destruct (py_int_of_decimal_text angle La) as [-> _].
    destruct (py_int_of_decimal_text distance Ld) as [-> _].
    now rewrite Hb.
  - apply text_ascii. rewrite Ht, forallb_app. cbn [forallb].
    now rewrite Aa, Ad.
  - rewrite Ht, contains_app. cbn [contains existsb].
    unfold contains in *. now rewrite Da, Dd.
Qed.

(** The hypotheses of X7 hold for the message ["-5,120."] at the start. *)
Lemma decimal_message_witness :
  (List.length (str_of_int (Z.abs (-5))) <= int_max_str_digits)%nat /\
  (List.length (str_of_int (Z.abs 120)) <= int_max_str_digits)%nat /\
  serial_buffer initial = [] /\
  text_of (bytes "-5,120") = str_of_int (-5) ++ COMMA :: str_of_int 120 /\
  read_serial (frame (bytes "-5,120")) initial
  = (mkState [] (str_of_int (-5)) (str_of_int 120) (-5) 120,
     [((-5)%Z, 120%Z)]).
Proof.
  assert (H1 : (List.length (str_of_int (Z.abs (-5)))
                <= int_max_str_digits)%nat)
    by (apply Nat.leb_le; reflexivity).
  assert (H2 : (List.length (str_of_int (Z.abs 120))
                <= int_max_str_digits)%nat)
    by (apply Nat.leb_le; reflexivity).
  assert (H3 : serial_buffer initial = []) by reflexivity.
  assert (H4 : text_of (bytes "-5,120")
               = str_of_int (-5) ++ COMMA :: str_of_int 120)
    by reflexivity.
  exact (conj H1 (conj H2 (conj H3 (conj H4
           (@decimal_message_is_decoded (-5) 120 (bytes "-5,120") initial
              H1 H2 H3 H4))))).
Defined.

(** X8.  Blanks (spaces, tabs, line ends) before and after the two fields
    of a message change neither the sample it sets nor the sample
    recorded. *)
Theorem blanks_around_the_fields_are_ignored
  (w1 a w2 w3 d w4 : str) (st : State) :
  forallb is_space w1 = true -> forallb is_space w2 = true ->
  forallb is_space w3 = true -> forallb is_space w4 = true ->
  contains COMMA a = false ->
  sample (fst (parse_message ((w1 ++ a ++ w2) ++ COMMA :: w3 ++ d ++ w4) st))
  = sample (fst (parse_message (a ++ COMMA :: d) st)) /\
  snd (parse_message ((w1 ++ a ++ w2) ++ COMMA :: w3 ++ d ++ w4) st)
  = snd (parse_message (a ++ COMMA :: d) st).
Proof.
  intros H1 H2 H3 H4 Ha.
  assert (Hc : contains COMMA (w1 ++ a ++ w2) = false).
  { rewrite !contains_app, Ha.
    now rewrite (@blanks_no_comma _ H1), (@blanks_no_comma _ H2). }
  rewrite (@parse_message_fields _ _ _ Hc), (@parse_message_fields _ _ _ Ha).
  rewrite (@strip_blanks _ _ _ H1 H2), (@strip_blanks _ _ _ H3 H4).
  destruct (py_int (strip a)); [|split; reflexivity].
  destruct (py_int (strip d)); split; reflexivity.
Qed.

(** The hypotheses of X8 hold for [" 45 , 12\r\n"]. *)
Lemma blanks_witness :
  forallb is_space [32%N] = true /\ forallb is_space [32%N] = true /\
  forallb is_space [32%N] = true /\ forallb is_space [13%N; 10%N] = true /\
  contains COMMA (lit "45") = false /\
  sample (fst (parse_message
                 (([32%N] ++ lit "45" ++ [32%N])
                  ++ COMMA :: [32%N] ++ lit "12" ++ [13%N; 10%N]) initial))
  = sample (fst (parse_message (lit "45" ++ COMMA :: lit "12") initial)) /\
  snd (parse_message
         (([32%N] ++ lit "45" ++ [32%N])
          ++ COMMA :: [32%N] ++ lit "12" ++ [13%N; 10%N]) initial)
  = snd (parse_message (lit "45" ++ COMMA :: lit "12") initial).
Proof.
  assert (H1 : forallb is_space [32%N] = true) by reflexivity.
  assert (H4 : forallb is_space [13%N; 10%N] = true) by reflexivity.
  assert (H5 : contains COMMA (lit "45") = false) by reflexivity.
  exact (conj H1 (conj H1 (conj H1 (conj H4 (conj H5
           (@blanks_around_the_fields_are_ignored
              [32%N] (lit "45") [32%N] [32%N] (lit "12") [13%N; 10%N]
              initial H1 H1 H1 H4 H5)))))).
Defined.

(** X9.  A sample is only ever recorded for a message of two fields around
    one comma, each made of blanks, signs, underscores and decimal digits
    and read by [int] as the angle and the distance; the message then sets
    the current sample to it. *)
Theorem sample_comes_from_two_numbers
  (msg : str) (st : State) (s : Sample) :
  In s (snd (parse_message msg st)) ->
  exists a d,
    msg = a ++ COMMA :: d /\
    forallb int_char a = true /\ forallb int_char d = true /\
    contains COMMA a = false /\ contains COMMA d = false /\
    py_int (strip a) = Some (fst s) /\ py_int (strip d) = Some (snd s) /\
    sample (fst (parse_message msg st)) = s.
Proof.
  unfold parse_message.
  destruct (contains COMMA msg); [|intros []].
  destruct (split1 COMMA msg) as [[a d]|] eqn:E; [|intros []].
  destruct (py_int (strip a)) as [va|] eqn:Ea; [|intros []].
  destruct (py_int (strip d)) as [vd|] eqn:Ed; [|intros []].
  intros [<-|[]]. exists a, d.
  assert (Hblank : forall c, is_space c = true -> int_char c = true).
  { intros c Hc. unfold int_char. now rewrite Hc. }
  pose proof (@forallb_strip _ _ Hblank (@py_int_chars _ _ Ea)) as Ha.
  pose proof (@forallb_strip _ _ Hblank (@py_int_chars _ _ Ed)) as Hd.
  apply split1_Some in E. destruct E as [-> _].
  repeat split; trivial; now apply int_chars_no_comma.
Qed.

(** The hypothesis of X9 holds for the message ["45,12"]. *)
Lemma sample_comes_from_two_numbers_witness :
  In (45, 12)%Z (snd (parse_message (lit "45,12") initial)) /\
  exists a d,
    lit "45,12" = a ++ COMMA :: d /\
    forallb int_char a = true /\ forallb int_char d = true /\
    contains COMMA a = false /\ contains COMMA d = false /\
    py_int (strip a) = Some (fst (45, 12)%Z) /\
    py_int (strip d) = Some (snd (45, 12)%Z) /\
    sample (fst (parse_message (lit "45,12") initial)) = (45, 12)%Z.
Proof.
  assert (H : In (45, 12)%Z (snd (parse_message (lit "45,12") initial)))
    by (left; reflexivity).
  exact (conj H (@sample_comes_from_two_numbers
                   (lit "45,12") initial (45, 12)%Z H)).
Defined.

(** * Further properties of the projection and the renderer *)

Import Frame.

Section RadarArea.

Local Open Scope R_scope.

Lemma processing_to_screen_origin :
  processing_to_screen 0 0 = (RADAR_CX, RADAR_CY).
Proof.
  unfold processing_to_screen.
  rewrite Rplus_0_r, Rminus_0_r, !int_of_float_IZR. reflexivity.
Qed.

(** A point of the upper half disc of radius 200 is projected into
    columns 40 to 440 and rows 10 to 210. *)
Lemma polar_to_screen_range (deg radius : R) :
  0 <= deg <= 180 -> 0 <= radius <= 200 ->
  (40 <= fst (polar_to_screen deg radius) <= 440)%Z /\
  (10 <= snd (polar_to_screen deg radius) <= 210)%Z.
Proof.
  intros Hd Hr. destruct (polar_to_local_range Hd Hr) as [Hx Hy].
  unfold polar_to_screen.
  destruct (polar_to_local deg radius) as [x y]. simpl in Hx, Hy.
  unfold processing_to_screen. simpl.
  split; apply int_of_float_between; unfold RADAR_CX, RADAR_CY; lra.
Qed.

Lemma in_radar_area_range (p : Z * Z) :
  (40 <= fst p <= 440)%Z /\ (10 <= snd p <= 210)%Z -> in_radar_area p.
Proof.
  unfold in_radar_area, WIDTH, RADAR_CY. lia.
Qed.

End RadarArea.

(** X10.  [processing_to_screen] keeps the order of the x coordinates and
    reverses the order of the y coordinates: a point further right is not
    drawn further left, a point higher up is not drawn lower down. *)
Theorem processing_to_screen_keeps_x_and_flips_y (x x' y y' : R) :
  (x <= x')%R -> (y <= y')%R ->
  (fst (processing_to_screen x y) <= fst (processing_to_screen x' y'))%Z /\
  (snd (processing_to_screen x' y') <= snd (processing_to_screen x y))%Z.
Proof.
  intros Hx Hy. unfold processing_to_screen. simpl.
  split; apply int_of_float_le; lra.
Qed.

(** The hypotheses of X10 hold for the points (0, 0) and (1, 1). *)
Lemma processing_to_screen_order_witness :
  (0 <= 1)%R /\ (0 <= 1)%R /\
  (fst (processing_to_screen 0 0) <= fst (processing_to_screen 1 1))%Z /\
  (snd (processing_to_screen 1 1) <= snd (processing_to_screen 0 0))%Z.
Proof.
  assert (H : (0 <= 1)%R) by lra.
  exact (conj H (conj H
           (@processing_to_screen_keeps_x_and_flips_y 0 1 0 1 H H))).
Defined.

(** X11.  For an angle from 0 to 180 degrees [draw_line] draws one line,
    from the centre of the radar to a pixel of columns 40 to 440 and rows 10
    to 210: the sweep ray stays on the canvas, over the base line. *)
Theorem sweep_ray_from_the_centre_over_the_base_line (st : State) :
  (0 <= i_angle st <= 180)%Z ->
  draw_line st
  = [Line GREEN_LINE (RADAR_CX, RADAR_CY)
          (polar_to_screen (IZR (i_angle st)) 200) 2] /\
  (40 <= fst (polar_to_screen (IZR (i_angle st)) 200) <= 440)%Z /\
  (10 <= snd (polar_to_screen (IZR (i_angle st)) 200) <= 210)%Z.
Proof.
  intros [H0 H1]. split.
  - unfold draw_line. rewrite processing_to_screen_origin. reflexivity.
  - apply polar_to_screen_range; [|lra].
    split; [apply (IZR_le 0)|apply (IZR_le _ 180)]; assumption.
Qed.

(** The hypothesis of X11 holds for the sample at the start. *)
Lemma sweep_ray_witness :
  (0 <= i_angle initial <= 180)%Z /\
  draw_line initial
  = [Line GREEN_LINE (RADAR_CX, RADAR_CY)
          (polar_to_screen (IZR (i_angle initial)) 200) 2] /\
  (40 <= fst (polar_to_screen (IZR (i_angle initial)) 200) <= 440)%Z /\
  (10 <= snd (polar_to_screen (IZR (i_angle initial)) 200) <= 210)%Z.
Proof.
  assert (H : (0 <= i_angle initial <= 180)%Z) by (simpl; lia).
  exact (conj H (@sweep_ray_from_the_centre_over_the_base_line initial H)).
Defined.

(** X12.  For an angle from 0 to 180 degrees and a distance from 0 to 39
    the marker of [draw_object] ends where the sweep ray of [draw_line]
    ends, and its point lies within the rows and the columns the ray
    spans: between the centre and the end of the ray. *)
Theorem marker_lies_along_the_sweep_ray (st : State) :
  (0 <= i_angle st <= 180)%Z -> (0 <= i_distance st < 40)%Z ->
  exists point edge,
    draw_line st = [Line GREEN_LINE (RADAR_CX, RADAR_CY) edge 2] /\
    draw_object st = [Line RED point edge 3; Circle RED point 3] /\
    (snd edge <= snd point <= RADAR_CY)%Z /\
    (Z.min RADAR_CX (fst edge) <= fst point
     <= Z.max RADAR_CX (fst edge))%Z.
Proof.
  intros [A0 A1] [D0 D1].
  exists (polar_to_screen (IZR (i_angle st))
                          (IZR (i_distance st * PIXELS_PER_CM))),
         (polar_to_screen (IZR (i_angle st)) (IZR RADAR_RADIUS)).
  split; [|split].
  - unfold draw_line. rewrite processing_to_screen_origin. reflexivity.
  - rewrite draw_object_below by (unfold THRESHOLD; lia). reflexivity.
  - assert (Ha : (0 <= IZR (i_angle st) <= 180)%R)
      by (split; [apply (IZR_le 0)|apply (IZR_le _ 180)]; assumption).
    apply radians_range in Ha. destruct Ha as [R0 R1].
    pose proof (sin_ge_0 _ R0 R1) as S0.
    assert (P0 : (0 <= IZR (i_distance st * PIXELS_PER_CM))%R)
      by (apply (IZR_le 0); unfold PIXELS_PER_CM; lia).
    assert (P1 : (IZR (i_distance st * PIXELS_PER_CM)
                  <= IZR RADAR_RADIUS)%R)
      by (apply IZR_le; unfold PIXELS_PER_CM, RADAR_RADIUS; lia).
    set (pix := IZR (i_distance st * PIXELS_PER_CM)) in *.
    set (rad := radians (IZR (i_angle st))) in *.
    unfold polar_to_screen, polar_to_local, processing_to_screen.
    cbn [fst snd]. fold rad.
    assert (Y1 : (0 <= pix * sin rad)%R) by now apply Rmult_le_pos.
    assert (Y2 : (pix * sin rad <= IZR RADAR_RADIUS * sin rad)%R)
      by now apply Rmult_le_compat_r.
    split.
    + split.
      * apply int_of_float_le. lra.
      * rewrite <- (int_of_float_IZR RADAR_CY) at 2.
        apply int_of_float_le. lra.
    + destruct (Rle_dec 0 (cos rad)) as [C|C].
      * assert (X1 : (0 <= pix * cos rad)%R) by now apply Rmult_le_pos.
        assert (X2 : (pix * cos rad <= IZR RADAR_RADIUS * cos rad)%R)
          by now apply Rmult_le_compat_r.
        assert (L : (int_of_float (IZR RADAR_CX)
                     <= int_of_float (IZR RADAR_CX + pix * cos rad))%Z)
          by (apply int_of_float_le; lra).
        assert (U : (int_of_float (IZR RADAR_CX + pix * cos rad)
                     <= int_of_float
                          (IZR RADAR_CX + IZR RADAR_RADIUS * cos rad))%Z)
          by (apply int_of_float_le; lra).
        rewrite int_of_float_IZR in L. lia.
      * assert (Cn : (0 <= - cos rad)%R) by lra.
        assert (X1 : (0 <= pix * - cos rad)%R) by now apply Rmult_le_pos.
        assert (X2 : (pix * - cos rad <= IZR RADAR_RADIUS * - cos rad)%R)
          by now apply Rmult_le_compat_r.
        assert (L : (int_of_float (IZR RADAR_CX + pix * cos rad)
                     <= int_of_float (IZR RADAR_CX))%Z)
          by (apply int_of_float_le; lra).
        assert (U : (int_of_float
                       (IZR RADAR_CX + IZR RADAR_RADIUS * cos rad)
                     <= int_of_float (IZR RADAR_CX + pix * cos rad))%Z)
          by (apply int_of_float_le; lra).
        rewrite int_of_float_IZR in L. lia.
Qed.

(** The hypotheses of X12 hold for the sample (90, 20). *)
Lemma marker_lies_along_the_sweep_ray_witness :
  (0 <= i_angle (mkState [] [] [] 90 20) <= 180)%Z /\
  (0 <= i_distance (mkState [] [] [] 90 20) < 40)%Z /\
  exists point edge,
    draw_line (mkState [] [] [] 90 20)
    = [Line GREEN_LINE (RADAR_CX, RADAR_CY) edge 2] /\
    draw_object (mkState [] [] [] 90 20)
    = [Line RED point edge 3; Circle RED point 3] /\
    (snd edge <= snd point <= RADAR_CY)%Z /\
    (Z.min RADAR_CX (fst edge) <= fst point
     <= Z.max RADAR_CX (fst edge))%Z.
Proof.
  assert (H1 : (0 <= i_angle (mkState [] [] [] 90 20) <= 180)%Z)
    by (simpl; lia).
  assert (H2 : (0 <= i_distance (mkState [] [] [] 90 20) < 40)%Z)
    by (simpl; lia).
  exact (conj H1 (conj H2
           (@marker_lies_along_the_sweep_ray _ H1 H2))).
Defined.

Section GridArcs.

Local Open Scope R_scope.

(** A circle of radius 300 or more around the centre of the radar meets
    the canvas only if its radius is below 500, and then only 180 rows or
    more above the centre. *)
Lemma large_circle_on_canvas (r u v : R) :
  u * u + v * v = r * r -> 300 <= r ->
  0 <= 240 + u < 480 -> 0 <= 210 - v < 320 ->
  r < 500 /\ (r = 300 -> 180 <= v).
Proof.
  intros E Hr Hu Hv. split.
  - destruct (Rlt_dec r 500) as [|H]; [assumption|]. exfalso.
    assert (250000 <= r * r) by nra.
    assert (u * u <= 57600) by nra.
    assert (v * v <= 44100) by nra.
    lra.
  - intros ->. destruct (Rle_dec 180 v) as [|H]; [assumption|]. exfalso.
    assert (u * u <= 57600) by nra.
    assert (v * v < 32400) by nra.
    lra.
Qed.

Lemma circle_point_on_canvas (left top w : Z) (theta : R) :
  IZR left + IZR w / 2 = 240 -> IZR top + IZR w / 2 = 210 ->
  600 <= IZR w ->
  on_canvas (circle_point left top w theta) ->
  IZR w < 1000 /\
  (IZR w = 600 ->
   snd (circle_point left top w theta) <= 30 /\ 0 < sin theta).
Proof.
  unfold on_canvas, circle_point, WIDTH, HEIGHT. cbn [fst snd].
  intros Hl Ht Hw [Hx Hy].
  set (r := IZR w / 2) in *.
  assert (E : (r * cos theta) * (r * cos theta)
              + (r * sin theta) * (r * sin theta) = r * r).
  { pose proof (sin2_cos2 theta) as S. unfold Rsqr in S. nra. }
  destruct (@large_circle_on_canvas r (r * cos theta) (r * sin theta) E)
    as [Hlt Hrow]; [unfold r; lra|lra|lra|].
  split; [unfold r in Hlt; lra|].
  intros Hw6. assert (Hr : r = 300) by (unfold r; lra).
  specialize (Hrow Hr). split; [lra|]. rewrite Hr in Hrow. nra.
Qed.

End GridArcs.

(** X13.  The four arcs of [draw_radar] are circles of radius 300, 500, 700
    and 900 around the centre of the radar.  For no angle between the start
    and the stop angle of an arc is its point on the 480 x 320 canvas; and
    whatever the angle, a point of such a circle that is on the canvas
    belongs to the smallest one and lies in rows 0 to 30. *)
Theorem grid_arcs_miss_the_canvas
  (c : color) (left top w h : Z) (start stop : R) (width : Z) (theta : R) :
  In (Arc c left top w h start stop width) draw_radar ->
  ((start <= theta <= stop)%R ->
   ~ on_canvas (circle_point left top w theta)) /\
  (on_canvas (circle_point left top w theta) ->
   w = 600%Z /\ (snd (circle_point left top w theta) <= 30)%R).
Proof.
  intros H.
  assert (G : (IZR left + IZR w / 2 = 240)%R /\
              (IZR top + IZR w / 2 = 210)%R /\
              (w = 600 \/ w = 1000 \/ w = 1400 \/ w = 1800)%Z /\
              start = PI /\ stop = (2 * PI)%R).
  { unfold draw_radar in H. cbn [app map In] in H.
    unfold RADAR_CX, RADAR_CY in H.
    repeat (destruct H as [H|H];
            [try discriminate H; inversion H; subst;
             repeat split; try lra; lia|]).
    destruct H. }
  destruct G as (Hl & Ht & Hw & -> & ->).
  assert (Hw6 : (600 <= IZR w)%R).
  { apply (IZR_le 600). lia. }
  split.
  - intros [T0 T1] Hc.
    destruct (circle_point_on_canvas Hl Ht Hw6 Hc) as [Hlt Hrow].
    assert (E : w = 600%Z).
    { destruct Hw as [E|[E|[E|E]]]; subst; [reflexivity|lra|lra|lra]. }
    subst w. destruct (Hrow eq_refl) as [_ Hs].
    pose proof (sin_le_0 _ T0 T1). lra.
  - intros Hc.
    destruct (circle_point_on_canvas Hl Ht Hw6 Hc) as [Hlt Hrow].
    assert (E : w = 600%Z).
    { destruct Hw as [E|[E|[E|E]]]; subst; [reflexivity|lra|lra|lra]. }
    subst w. split; [reflexivity|]. apply (Hrow eq_refl).
Qed.

(** The hypothesis of X13 holds for the smallest arc. *)
Lemma grid_arcs_witness :
  In (Arc GREEN (RADAR_CX - 300) (RADAR_CY - 300) 600 600 PI (2 * PI) 2)
     draw_radar /\
  ((PI <= PI <= 2 * PI)%R ->
   ~ on_canvas
       (circle_point (RADAR_CX - 300) (RADAR_CY - 300) 600 PI)) /\
  (on_canvas (circle_point (RADAR_CX - 300) (RADAR_CY - 300) 600 PI) ->
   600%Z = 600%Z /\
   (snd (circle_point (RADAR_CX - 300) (RADAR_CY - 300) 600 PI)
    <= 30)%R).
Proof.
  assert (H : In (Arc GREEN (RADAR_CX - 300) (RADAR_CY - 300) 600 600
                      PI (2 * PI) 2) draw_radar).
  { unfold draw_radar. apply in_or_app. left.
    right. right. right. left. reflexivity. }
  exact (conj H (@grid_arcs_miss_the_canvas _ _ _ _ _ _ _ _ PI H)).
Defined.

(** ** The colours of a frame *)

Lemma draw_radar_green :
  Forall (fun c => cmd_color c <> RED) draw_radar.
Proof.
  unfold draw_radar. cbn [app map].
  repeat constructor; cbn [cmd_color draw_color]; discriminate.
Qed.

Lemma draw_line_green (st : State) :
  Forall (fun c => cmd_color c <> RED) (map Draw (draw_line st)).
Proof.
  unfold draw_line. cbn [map].
  repeat constructor; cbn [cmd_color draw_color]; discriminate.
Qed.

Lemma draw_text_beyond (st : State) :
  (40 < i_distance st)%Z ->
  Forall (fun c => cmd_color c <> RED) (map Draw (snd (draw_text st))).
Proof.
  intros H. unfold draw_text, txt_status, txt_ang, txt_dist,
              scale_labels, degree_labels.
  apply Z.ltb_lt in H. rewrite H.
  assert (H' : (i_distance st <? 40)%Z = false)
    by (apply Z.ltb_ge; apply Z.ltb_lt in H; lia).
  rewrite H'. cbn [snd app map flat_map].
  repeat constructor; cbn [cmd_color draw_color]; discriminate.
Qed.

Lemma draw_text_status_red (st : State) :
  (i_distance st <= 40)%Z ->
  In (Draw (Text font_small (lit "In") RED (TopLeft (5, 240)%Z)))
     (map Draw (snd (draw_text st))).
Proof.
  intros H. apply in_map. unfold draw_text. cbn [snd].
  apply in_or_app; right; apply in_or_app; right; apply in_or_app; left.
  right. left. unfold txt_status.
  assert (H' : (40 <? i_distance st)%Z = false) by (apply Z.ltb_ge; lia).
  now rewrite H'.
Qed.

(** X14.  In one round of the main loop whose sample, after the read,
    converts to floats, something is drawn in the alert colour (red)
    exactly when the distance held is 40 or less: beyond 40 the frame (fade,
    grid, sweep ray, status bar) has no red in it. *)
Theorem red_is_drawn_exactly_up_to_40 (chunk : list byte) (st : State) :
  FloatProjector.drawable (fst (loop_iteration chunk st)) ->
  Exists (fun c => cmd_color c = RED) (snd (loop_iteration chunk st))
  <-> (i_distance (fst (loop_iteration chunk st)) <= 40)%Z.
Proof.
  intros _.
  unfold loop_iteration. cbn [fst snd].
  set (st' := fst (read_serial chunk st)).
  split.
  - intros H. destruct (Z.le_gt_cases (i_distance st') 40) as [|Hgt];
      [assumption|]. exfalso.
    apply Exists_exists in H. destruct H as (c & Hin & Hc).
    assert (F : Forall (fun c => cmd_color c <> RED)
                  ([Fade BG_COLOR 10 0 0 WIDTH 235] ++ draw_radar
                   ++ map Draw (draw_line st')
                   ++ map Draw (draw_object st')
                   ++ map Draw (snd (draw_text st')))).
    { apply Forall_app; split.
      { repeat constructor. cbn. discriminate. }
      apply Forall_app; split; [apply draw_radar_green|].
      apply Forall_app; split; [apply draw_line_green|].
      apply Forall_app; split.
      - rewrite draw_object_from by (unfold THRESHOLD; lia). constructor.
      - apply draw_text_beyond. lia. }
    rewrite Forall_forall in F. exact (F c Hin Hc).
  - intros H. apply Exists_exists.
    exists (Draw (Text font_small (lit "In") RED (TopLeft (5, 240)%Z))).
    split; [|reflexivity].
    apply in_or_app; right; apply in_or_app; right;
      apply in_or_app; right; apply in_or_app; right.
    now apply draw_text_status_red.
Qed.

(** The hypothesis of X14 holds for the round that reads ["90,20."] at the
    start. *)
Lemma red_is_drawn_witness :
  FloatProjector.drawable (fst (loop_iteration (bytes "90,20.") initial)) /\
  (Exists (fun c => cmd_color c = RED)
          (snd (loop_iteration (bytes "90,20.") initial))
   <-> (i_distance (fst (loop_iteration (bytes "90,20.") initial)) <= 40)%Z).
Proof.
  assert (H : FloatProjector.drawable
                (fst (loop_iteration (bytes "90,20.") initial)))
    by (split; reflexivity).
  exact (conj H (@red_is_drawn_exactly_up_to_40 (bytes "90,20.") initial H)).
Defined.

(** X15.  The marker and the status bar agree wherever the marker is
    drawn or the status reads out of range: with a marker the status reads
    ["In"] and the distance is shown in figures; with the status ["Out"]
    there is no marker and the placeholder is shown. *)
Theorem marker_and_status_bar_agree (st : State) :
  (draw_object st <> [] ->
   fst (draw_text st) = lit "In" /\
   txt_dist st
   = Text font_small (lit "D:" ++ str_of_int (i_distance st) ++ lit "cm")
          RED (TopLeft (5, 240 + 30)%Z)) /\
  (fst (draw_text st) = lit "Out" ->
   draw_object st = [] /\
   txt_dist st
   = Text font_small (lit "D:---") GREEN_TEXT (TopLeft (5, 240 + 30)%Z)) /\
  In (txt_dist st) (snd (draw_text st)).
Proof.
  split; [|split].
  - intros H.
    assert (Hd : (i_distance st < 40)%Z).
    { destruct (Z.lt_ge_cases (i_distance st) 40) as [|Hge];
        [assumption|].
      exfalso. apply H. apply draw_object_from. exact Hge. }
    unfold draw_text, txt_dist. cbn [fst].
    destruct (Z.ltb_spec 40 (i_distance st)); [lia|].
    destruct (Z.ltb_spec (i_distance st) 40); [|lia]. auto.
  - unfold draw_text, txt_dist. cbn [fst].
    destruct (Z.ltb_spec 40 (i_distance st)) as [Hgt|Hle];
      [|intros E; discriminate E].
    intros _. split.
    + apply draw_object_from. unfold THRESHOLD. lia.
    + destruct (Z.ltb_spec (i_distance st) 40); [lia|reflexivity].
  - unfold draw_text. cbn [snd].
    apply in_or_app; right; apply in_or_app; right; apply in_or_app; left.
    right. right. right. left. reflexivity.
Qed.

(** ** The width of the angle readout *)

Lemma format_03d_width_checked :
  forallb
    (fun k => (List.length (format_03d (Z.of_nat k - 99)) =? 3)%nat)
    (seq 0 1099) = true.
Proof. vm_compute. reflexivity. Qed.

(** X16.  The angle readout [format(n, "03d")] is never shorter than
    three characters, and is exactly three characters for every angle from
    -99 to 999. *)
Theorem angle_readout_width :
  (forall n : Z, (3 <= List.length (format_03d n))%nat) /\
  (forall n : Z, (-99 <= n <= 999)%Z -> List.length (format_03d n) = 3%nat).
Proof.
  split.
  - intros n. unfold format_03d. rewrite !length_app, repeat_length. lia.
  - intros n Hn. pose proof format_03d_width_checked as H.
    rewrite forallb_forall in H.
    specialize (H (Z.to_nat (n + 99))).
    replace (Z.of_nat (Z.to_nat (n + 99)) - 99)%Z with n in H by lia.
    apply Nat.eqb_eq, H, in_seq. lia.
Qed.

(** The hypothesis of the second part of X16 holds for the angle 45. *)
Lemma angle_readout_width_witness :
  (-99 <= 45 <= 999)%Z /\ List.length (format_03d 45) = 3%nat.
Proof.
  assert (H : (-99 <= 45 <= 999)%Z) by lia.
  exact (conj H (proj2 angle_readout_width 45%Z H)).
Defined.

(** ** The straight lines of the grid *)

Lemma processing_to_screen_integers (x y : Z) :
  processing_to_screen (IZR x) (IZR y) = (RADAR_CX + x, RADAR_CY - y)%Z.
Proof.
  unfold processing_to_screen.
  rewrite <- plus_IZR, <- minus_IZR, !int_of_float_IZR. reflexivity.
Qed.

(** X17.  The straight lines of [draw_radar], the base line and the five
    guide rays, are green and join pixels of the canvas in rows 0 to 210,
    the base line running from (40, 210) to (440, 210). *)
Theorem grid_lines_over_the_base_line :
  In (Draw (Line GREEN (40, 210)%Z (440, 210)%Z 1)) draw_radar /\
  (forall d : DrawCmd,
      In (Draw d) draw_radar ->
      draw_color d = GREEN /\ Forall in_radar_area (draw_points d)).
Proof.
  assert (B1 : processing_to_screen (IZR (- RADAR_RADIUS)) 0
               = (40, 210)%Z).
  { replace 0%R with (IZR 0) by reflexivity.
    rewrite processing_to_screen_integers. reflexivity. }
  assert (B2 : processing_to_screen (IZR RADAR_RADIUS) 0 = (440, 210)%Z).
  { replace 0%R with (IZR 0) by reflexivity.
    rewrite processing_to_screen_integers. reflexivity. }
  assert (Ray : forall deg : Z, (0 <= deg <= 180)%Z ->
            in_radar_area
              (processing_to_screen
                 (IZR RADAR_RADIUS * cos (radians (IZR deg)))
                 (IZR RADAR_RADIUS * sin (radians (IZR deg))))).
  { intros deg [H0 H1]. apply in_radar_area_range.
    apply (@polar_to_screen_range (IZR deg) (IZR RADAR_RADIUS)).
    - split; [apply (IZR_le 0)|apply (IZR_le _ 180)]; assumption.
    - unfold RADAR_RADIUS. lra. }
  assert (Centre : in_radar_area (processing_to_screen 0 0)).
  { rewrite processing_to_screen_origin.
    unfold in_radar_area, RADAR_CX, RADAR_CY, WIDTH. simpl. lia. }
  split.
  - unfold draw_radar. apply in_or_app. right. apply in_or_app. left.
    rewrite B1, B2. left. reflexivity.
  - intros d H. unfold draw_radar in H.
    apply in_app_or in H. destruct H as [H|H].
    { cbn [In] in H.
      repeat (destruct H as [H|H]; [discriminate H|]). destruct H. }
    apply in_app_or in H. destruct H as [H|H].
    + destruct H as [H|[]]. injection H as <-.
      cbn [draw_color draw_points]. split; [reflexivity|].
      rewrite !processing_to_screen_integers.
      repeat constructor; unfold RADAR_CX, RADAR_CY, RADAR_RADIUS, WIDTH;
        simpl; lia.
    + cbn [map In] in H.
      repeat (destruct H as [H|H];
              [injection H as <-; cbn [draw_color draw_points];
               split; [reflexivity|];
               apply Forall_cons;
               [exact Centre
               |apply Forall_cons; [apply Ray; lia|apply Forall_nil]]|]).
      destruct H.
Qed.

(** The hypothesis of the second part of X17 holds for the base line. *)
Lemma grid_lines_witness :
  In (Draw (Line GREEN (40, 210)%Z (440, 210)%Z 1)) draw_radar /\
  draw_color (Line GREEN (40, 210)%Z (440, 210)%Z 1) = GREEN /\
  Forall in_radar_area (draw_points (Line GREEN (40, 210)%Z (440, 210)%Z 1)).
Proof.
  exact (conj (proj1 grid_lines_over_the_base_line)
              (proj2 grid_lines_over_the_base_line _
                     (proj1 grid_lines_over_the_base_line))).
Defined.

(** ** How much the buffer can grow *)

(** The codec yields at most one character for each byte. *)
Lemma decode_length (bs : list byte) (text : str) :
  decode Ignore bs = Some text ->
  (List.length text <= List.length bs)%nat.
Proof.
  remember (List.length bs) as n eqn:En.
  assert (Hn : (List.length bs <= n)%nat) by lia.
  rewrite En. clear En.
  revert bs text Hn. induction n as [|n IH]; intros bs text Hn H.
  - destruct bs; [|simpl in Hn; lia]. inversion H. simpl. lia.
  - destruct bs as [|b0 r]; [inversion H; simpl; lia|].
    simpl in Hn.
    assert (Hemit : forall c rest t,
               (List.length rest <= n)%nat ->
               emit c (decode Ignore rest) = Some t ->
               (List.length t <= S (List.length rest))%nat).
    { intros c rest t Hr Ht.
      destruct (decode Ignore rest) as [t'|] eqn:Et; [|discriminate].
      inversion Ht; subst. specialize (IH rest t' Hr Et). simpl. lia. }
    cbn [decode on_error] in H.
    repeat
      match type of H with
      | context [if ?c then _ else _] => destruct c eqn:?
      | context [match ?l with [] => _ | _ :: _ => _ end] => destruct l
      end;
      try (apply Hemit in H; [|simpl in *; lia]);
      try (apply IH in H; [|simpl in *; lia]);
      try (match type of H with Some _ = Some _ => inversion H; subst end);
      simpl in *; lia.
Qed.

(** X18.  A call never lets the buffer grow by more characters than the
    bytes it received. *)
Theorem buffer_grows_by_at_most_the_chunk
  (chunk : list byte) (st : State) :
  (List.length (serial_buffer (fst (read_serial chunk st)))
   <= List.length (serial_buffer st) + List.length chunk)%nat.
Proof.
  destruct chunk as [|b bs]; [simpl; lia|].
  destruct (read_serial_cons b bs st) as (text & Hd & ->).
  destruct (while_loop_consumes (set_buffer (serial_buffer st ++ text) st))
    as (consumed & Hc & _).
  simpl serial_buffer in Hc.
  apply (f_equal (@List.length N)) in Hc. rewrite !length_app in Hc.
  pose proof (decode_length _ Hd). lia.
Qed.
